(** * mvmv: the parallel merge-move engine of move.go

    A shallow embedding of [performMove], [worker], [processPath],
    [processDir] and [processFile], and the properties of the engine that
    follow from the code.

    - The operating system ([os.Lstat], [os.ReadDir], [os.Rename],
      [filepath.Join]) is an interface, [OS]; every theorem of the engine
      holds for all of its implementations.  [MemFS] is one implementation,
      a small in-memory file tree used to run the engine on examples.
    - [Statistics] counters are [int64]: [AddInt64] wraps around.
    - The body of [processPath] is a computation over a [World] (file system,
      counters, output) and returns the child jobs.
    - [performMove] starts a [Machine]: the main goroutine, the workers, the
      reporter, the job channel and the WaitGroup counter.  One [step] is one
      channel or WaitGroup operation of one goroutine, or one call of
      [processPath] on a dequeued job, which touches neither the channel nor
      the WaitGroup; a run is a schedule of steps.  The WaitGroup follows
      the contract of [sync.WaitGroup]: an integer counter, [Add] panics
      when it would go negative, [Wait] returns when it is zero. *)

From Stdlib Require Import ZArith String List Bool Lia.
From stdpp Require Import base option list.
Import ListNotations.

Local Open Scope string_scope.
Local Open Scope list_scope.
Local Open Scope Z_scope.

(** ** Data model *)

(** [type Options struct] *)
Record Options := mkOptions {
  Workers : Z;
  Buffer  : Z;
  Stats   : bool;
  Verbose : bool;
  DryRun  : bool
}.

(** [type Statistics struct]; [StartTime] only feeds the progress display and
    is left out. *)
Record Statistics := mkStatistics {
  DirsChecked     : Z;
  DirsSkipped     : Z;
  DirsMoved       : Z;
  FilesChecked    : Z;
  FilesSkipped    : Z;
  FilesMoved      : Z;
  BytesMoved      : Z;
  SymlinksSkipped : Z;
  Errors          : Z
}.

(** [type Job struct] *)
Record Job := mkJob {
  SourcePath : string;
  TargetPath : string
}.

(** The fields of [Statistics], as the first argument of [atomic.AddInt64]. *)
Inductive Counter :=
| CDirsChecked | CDirsSkipped | CDirsMoved
| CFilesChecked | CFilesSkipped | CFilesMoved
| CBytesMoved | CSymlinksSkipped | CErrors.

(** Two's complement [int64]. *)
Definition wrap64 (z : Z) : Z := (z + 2 ^ 63) mod 2 ^ 64 - 2 ^ 63.
Definition add64 (x delta : Z) : Z := wrap64 (x + delta).

Definition zeroStatistics : Statistics := mkStatistics 0 0 0 0 0 0 0 0 0.

Definition addCounter (c : Counter) (delta : Z) (s : Statistics) : Statistics :=
  match s with
  | mkStatistics dc ds dm fc fs fm bm ss er =>
    match c with
    | CDirsChecked     => mkStatistics (add64 dc delta) ds dm fc fs fm bm ss er
    | CDirsSkipped     => mkStatistics dc (add64 ds delta) dm fc fs fm bm ss er
    | CDirsMoved       => mkStatistics dc ds (add64 dm delta) fc fs fm bm ss er
    | CFilesChecked    => mkStatistics dc ds dm (add64 fc delta) fs fm bm ss er
    | CFilesSkipped    => mkStatistics dc ds dm fc (add64 fs delta) fm bm ss er
    | CFilesMoved      => mkStatistics dc ds dm fc fs (add64 fm delta) bm ss er
    | CBytesMoved      => mkStatistics dc ds dm fc fs fm (add64 bm delta) ss er
    | CSymlinksSkipped => mkStatistics dc ds dm fc fs fm bm (add64 ss delta) er
    | CErrors          => mkStatistics dc ds dm fc fs fm bm ss (add64 er delta)
    end
  end.

(** ** The operating system *)

Inductive Errno := ENOENT | EACCES | ENOTDIR | EEXIST | EXDEV.

Inductive result (A : Type) :=
| Ok (a : A)
| Err (e : Errno).
Arguments Ok {A} a.
Arguments Err {A} e.

Definition isOk {A} (r : result A) : bool :=
  match r with Ok _ => true | Err _ => false end.

(** [os.FileInfo]: the mode bits and the size are all the engine reads. *)
Record FileInfo := mkFileInfo {
  Mode : Z;
  Size : Z
}.

(** [os.ModeDir] and [os.ModeSymlink] of [io/fs]. *)
Definition ModeDir     : Z := Z.shiftl 1 31.
Definition ModeSymlink : Z := Z.shiftl 1 27.

(** [info.IsDir()] *)
Definition IsDir (info : FileInfo) : bool :=
  negb (Z.land (Mode info) ModeDir =? 0).

(** [info.Mode()&os.ModeSymlink != 0] *)
Definition isSymlink (info : FileInfo) : bool :=
  negb (Z.land (Mode info) ModeSymlink =? 0).

(** What the engine asks of the system, over a type [FS] of file system
    states.  [Rename] returns the file system after the call and the error,
    if any; [ReadDir] returns the entry names. *)
Class OS (FS : Type) := {
  Lstat   : FS -> string -> result FileInfo;
  ReadDir : FS -> string -> result (list string);
  Rename  : FS -> string -> string -> FS * option Errno;
  Join    : string -> string -> string
}.

(** ** Output *)

(** The lines of [fmt.Printf] and [fmt.Fprintf(os.Stderr, ...)]. *)
Inductive Message :=
| CannotStat (path : string) (err : Errno)
| SkippingSymlink (path : string)
| MovingDirectory (source target : string)
| FailedToMoveDirectory (source : string) (err : Errno)
| CannotReadDirectory (source : string) (err : Errno)
| SkippingExistingFile (target : string)
| MovingFile (source target : string)
| FailedToMoveFile (source : string) (err : Errno)
| Progress (s : Statistics)
| FinalStats (s : Statistics).

(** What a run does to the outside, in order. *)
Inductive Event :=
| SysLstat (path : string)
| SysReadDir (path : string)
| SysRename (source target : string) (err : option Errno)
| Stdout (m : Message)
| Stderr (m : Message).

Definition isRename (e : Event) : bool :=
  match e with SysRename _ _ _ => true | _ => false end.

(** The [os.Rename] calls of a log. *)
Definition renameCalls (log : list Event) : list Event := List.filter isRename log.

Section Engine.

Context {FS : Type} {os : OS FS}.

(** ** The world of a worker *)

Record World := mkWorld {
  fs    : FS;
  stats : Statistics;
  log   : list Event
}.

Definition M (A : Type) : Type := World -> A * World.

Definition ret {A} (a : A) : M A := fun w => (a, w).

Definition bind {A B} (m : M A) (k : A -> M B) : M B :=
  fun w => let (a, w') := m w in k a w'.

Notation "x <- m ;; k" := (bind m (fun x => k))
  (at level 100, m at level 99, k at level 200, right associativity).
Notation "m ;; k" := (bind m (fun _ => k))
  (at level 100, k at level 200, right associativity).

Definition emit (e : Event) : M unit :=
  fun w => (tt, mkWorld (fs w) (stats w) (log w ++ [e])).

(** [atomic.AddInt64(&stats.c, delta)] *)
Definition AddInt64 (c : Counter) (delta : Z) : M unit :=
  fun w => (tt, mkWorld (fs w) (addCounter c delta (stats w)) (log w)).

(** [os.Lstat(path)] *)
Definition lstat (path : string) : M (result FileInfo) :=
  fun w => (Lstat (fs w) path, mkWorld (fs w) (stats w) (log w ++ [SysLstat path])).

(** [os.ReadDir(path)] *)
Definition readDir (path : string) : M (result (list string)) :=
  fun w => (ReadDir (fs w) path, mkWorld (fs w) (stats w) (log w ++ [SysReadDir path])).

(** [os.Rename(source, target)] *)
Definition rename (source target : string) : M (option Errno) :=
  fun w =>
    let (fs', err) := Rename (fs w) source target in
    (err, mkWorld fs' (stats w) (log w ++ [SysRename source target err])).

(** [if opts.Verbose { ... }] *)
Definition verbose (opts : Options) (e : Event) : M unit :=
  if Verbose opts then emit e else ret tt.

(** ** processDir, processFile, processPath *)

Definition processDir (sourcePath targetPath : string) (targetExists : bool)
    (opts : Options) : M (list Job) :=
  AddInt64 CDirsChecked 1 ;;
  if negb targetExists then
    verbose opts (Stdout (MovingDirectory sourcePath targetPath)) ;;
    (if negb (DryRun opts) then
       err <- rename sourcePath targetPath ;;
       match err with
       | Some e =>
           AddInt64 CErrors 1 ;;
           verbose opts (Stderr (FailedToMoveDirectory sourcePath e))
       | None => AddInt64 CDirsMoved 1
       end
     else AddInt64 CDirsMoved 1) ;;
    ret []
  else
    AddInt64 CDirsSkipped 1 ;;
    entries <- readDir sourcePath ;;
    match entries with
    | Err e =>
        AddInt64 CErrors 1 ;;
        verbose opts (Stderr (CannotReadDirectory sourcePath e)) ;;
        ret []
    | Ok names =>
        ret (List.map (fun name => mkJob (Join sourcePath name) (Join targetPath name)) names)
    end.

Definition processFile (sourcePath targetPath : string) (targetExists : bool)
    (sourceInfo : FileInfo) (opts : Options) : M unit :=
  AddInt64 CFilesChecked 1 ;;
  if targetExists then
    AddInt64 CFilesSkipped 1 ;;
    verbose opts (Stdout (SkippingExistingFile targetPath))
  else
    verbose opts (Stdout (MovingFile sourcePath targetPath)) ;;
    if negb (DryRun opts) then
      err <- rename sourcePath targetPath ;;
      match err with
      | Some e =>
          AddInt64 CErrors 1 ;;
          verbose opts (Stderr (FailedToMoveFile sourcePath e))
      | None =>
          AddInt64 CFilesMoved 1 ;;
          AddInt64 CBytesMoved (Size sourceInfo)
      end
    else
      AddInt64 CFilesMoved 1 ;;
      AddInt64 CBytesMoved (Size sourceInfo).

Definition processPath (sourcePath targetPath : string) (opts : Options) : M (list Job) :=
  if String.eqb sourcePath targetPath then ret []
  else
    src <- lstat sourcePath ;;
    match src with
    | Err e =>
        AddInt64 CErrors 1 ;;
        verbose opts (Stderr (CannotStat sourcePath e)) ;;
        ret []
    | Ok sourceInfo =>
        if isSymlink sourceInfo then
          AddInt64 CSymlinksSkipped 1 ;;
          verbose opts (Stdout (SkippingSymlink sourcePath)) ;;
          ret []
        else
          tgt <- lstat targetPath ;;
          let targetExists := isOk tgt in
          if IsDir sourceInfo then
            processDir sourcePath targetPath targetExists opts
          else
            processFile sourcePath targetPath targetExists sourceInfo opts ;;
            ret []
    end.

(** The move branch of a job, seen from outside: the [os.Rename] call it adds
    to the log, and how the move ends ([None]: counted as moved). *)
Definition moveCall (opts : Options) (w : World) (s t : string) : list Event :=
  if DryRun opts then [] else [SysRename s t (snd (Rename (fs w) s t))].

Definition moveOutcome (opts : Options) (w : World) (s t : string) : option Errno :=
  if DryRun opts then None else snd (Rename (fs w) s t).

Definition withDryRun (b : bool) (opts : Options) : Options :=
  mkOptions (Workers opts) (Buffer opts) (Stats opts) (Verbose opts) b.

(** ** performMove and the goroutines *)

Inductive Role := Source | Target.

(** The errors [performMove] returns. *)
Inductive MoveError :=
| PathError (who : Role) (e : Errno)      (* "source path error: %w" *)
| MustBeDirectory (who : Role)            (* "source must be a directory" *)
| CannotBeSymlink (who : Role)            (* "source cannot be a symlink" *)
| CompletedWithErrors (n : Z).            (* "completed with %d errors" *)

(** The three checks [performMove] makes on the result of [os.Lstat], first
    for the source and then for the target. *)
Definition checkRoot (who : Role) (r : result FileInfo) : option MoveError :=
  match r with
  | Err e => Some (PathError who e)
  | Ok info =>
      if negb (IsDir info) then Some (MustBeDirectory who)
      else if isSymlink info then Some (CannotBeSymlink who)
      else None
  end.

(** Where a worker stands in [for job := range jobs { ... }]. *)
Inductive WorkerPC :=
| WRecv                                   (* waiting to receive from [jobs] *)
| WProc (job : Job)                       (* about to call [processPath] *)
| WLoop (newJobs : list Job)              (* at the head of [for _, newJob := range newJobs] *)
| WSend (newJob : Job) (rest : list Job)  (* after [jobsWg.Add(1)], at [jobs <- newJob] *)
| WExit.                                  (* [jobs] closed and drained *)

(** Where [performMove] stands after it has started the goroutines. *)
Inductive MainPC :=
| MRegister (seed : Job)                  (* at [jobsWg.Add(1)] *)
| MSeed (seed : Job)                      (* at [jobs <- Job{source, target}] *)
| MWait                                   (* at [jobsWg.Wait()] *)
| MClose                                  (* at [close(jobs)] *)
| MFinish                                 (* final statistics and the error check *)
| MReturned (r : option MoveError).

Record Machine := mkMachine {
  options    : Options;
  world      : World;
  jobs       : list Job;     (* the channel buffer, oldest first *)
  bufferSize : Z;            (* its capacity *)
  jobsClosed : bool;
  jobsWg     : Z;            (* the WaitGroup counter *)
  pool       : list WorkerPC;
  mainPC     : MainPC;
  statsDone  : bool          (* [close(statsDone)] has happened *)
}.

Inductive Start :=
| Rejected (e : MoveError)
| MakeChanPanic               (* [make(chan Job, n)] with [n < 0] *)
| Started (m : Machine).

Definition performMove (fs0 : FS) (source target : string) (opts : Options) : Start :=
  match checkRoot Source (Lstat fs0 source) with
  | Some e => Rejected e
  | None =>
    match checkRoot Target (Lstat fs0 target) with
    | Some e => Rejected e
    | None =>
      let size := if Buffer opts =? 0 then 100000 else Buffer opts in
      if size <? 0 then MakeChanPanic
      else Started (mkMachine opts
                      (mkWorld fs0 zeroStatistics [SysLstat source; SysLstat target])
                      [] size false 0
                      (replicate (Z.to_nat (Workers opts)) WRecv)
                      (MRegister (mkJob source target))
                      false)
    end
  end.

Inductive Actor := AMain | AWorker (i : nat) | AReporter.

Inductive Outcome :=
| Blocked                     (* the goroutine cannot move now (or has returned) *)
| Panic
| Next (m : Machine).

Definition setMain (m : Machine) (pc : MainPC) : Machine :=
  mkMachine (options m) (world m) (jobs m) (bufferSize m) (jobsClosed m)
            (jobsWg m) (pool m) pc (statsDone m).

Definition setWorker (m : Machine) (i : nat) (pc : WorkerPC) : Machine :=
  mkMachine (options m) (world m) (jobs m) (bufferSize m) (jobsClosed m)
            (jobsWg m) (<[i := pc]> (pool m)) (mainPC m) (statsDone m).

Definition setWorld (m : Machine) (w : World) : Machine :=
  mkMachine (options m) w (jobs m) (bufferSize m) (jobsClosed m)
            (jobsWg m) (pool m) (mainPC m) (statsDone m).

Definition setJobs (m : Machine) (q : list Job) : Machine :=
  mkMachine (options m) (world m) q (bufferSize m) (jobsClosed m)
            (jobsWg m) (pool m) (mainPC m) (statsDone m).

(** [jobsWg.Add(delta)]: panics when the counter goes negative. *)
Definition wgAdd (m : Machine) (delta : Z) : option Machine :=
  let v := jobsWg m + delta in
  if v <? 0 then None
  else Some (mkMachine (options m) (world m) (jobs m) (bufferSize m) (jobsClosed m)
                       v (pool m) (mainPC m) (statsDone m)).

(** [jobs <- job]: panics on a closed channel, blocks on a full one. *)
Definition send (m : Machine) (job : Job) (k : Machine -> Machine) : Outcome :=
  if jobsClosed m then Panic
  else if Z.of_nat (length (jobs m)) <? bufferSize m
       then Next (k (setJobs m (jobs m ++ [job])))
       else Blocked.

(** [if atomic.LoadInt64(&stats.Errors) > 0 { return fmt.Errorf(...) }; return nil] *)
Definition finalError (s : Statistics) : option MoveError :=
  if Errors s >? 0 then Some (CompletedWithErrors (Errors s)) else None.

(** One move of [performMove] from [jobsWg.Add(1)] on. *)
Definition stepMain (m : Machine) : Outcome :=
  match mainPC m with
  | MRegister seed =>
      match wgAdd m 1 with
      | Some m' => Next (setMain m' (MSeed seed))
      | None => Panic
      end
  | MSeed seed => send m seed (fun m' => setMain m' MWait)
  | MWait => if jobsWg m =? 0 then Next (setMain m MClose) else Blocked
  | MClose =>
      if jobsClosed m then Panic
      else Next (mkMachine (options m) (world m) (jobs m) (bufferSize m) true
                           (jobsWg m) (pool m) MFinish (statsDone m))
  | MFinish =>
      let w := if Stats (options m)
               then snd (emit (Stdout (FinalStats (stats (world m)))) (world m))
               else world m in
      Next (mkMachine (options m) w (jobs m) (bufferSize m) (jobsClosed m)
                      (jobsWg m) (pool m)
                      (MReturned (finalError (stats w)))
                      (Stats (options m) || statsDone m))
  | MReturned _ => Blocked
  end.

(** One move of worker [i] in [worker]: a receive, a call of [processPath],
    an [Add], a send or the [Done]. *)
Definition worker (i : nat) (m : Machine) : Outcome :=
  match pool m !! i with
  | None => Blocked
  | Some WRecv =>
      match jobs m with
      | job :: q => Next (setWorker (setJobs m q) i (WProc job))
      | [] => if jobsClosed m then Next (setWorker m i WExit) else Blocked
      end
  | Some (WProc job) =>
      let (newJobs, w) := processPath (SourcePath job) (TargetPath job) (options m) (world m) in
      Next (setWorker (setWorld m w) i (WLoop newJobs))
  | Some (WLoop (newJob :: rest)) =>
      match wgAdd m 1 with
      | Some m' => Next (setWorker m' i (WSend newJob rest))
      | None => Panic
      end
  | Some (WSend newJob rest) => send m newJob (fun m' => setWorker m' i (WLoop rest))
  | Some (WLoop []) =>
      match wgAdd m (-1) with
      | Some m' => Next (setWorker m' i WRecv)
      | None => Panic
      end
  | Some WExit => Blocked
  end.

(** [statsReporter]: a tick prints the counters, until [statsDone] is closed. *)
Definition statsReporter (m : Machine) : Outcome :=
  if Stats (options m) && negb (statsDone m)
  then Next (setWorld m (snd (emit (Stdout (Progress (stats (world m)))) (world m))))
  else Blocked.

Definition step (a : Actor) (m : Machine) : Outcome :=
  match a with
  | AMain => stepMain m
  | AWorker i => worker i m
  | AReporter => statsReporter m
  end.

(** A run under a schedule: the goroutine named at each position moves. *)
Fixpoint exec (schedule : list Actor) (m : Machine) : option Machine :=
  match schedule with
  | [] => Some m
  | a :: rest =>
      match step a m with
      | Next m' => exec rest m'
      | _ => None
      end
  end.

(** Worker [i] alone, for as long as it takes to register and send [k]
    child jobs: [jobsWg.Add(1)] then [jobs <- newJob], [k] times. *)
Fixpoint expandSchedule (i : nat) (k : nat) : list Actor :=
  match k with
  | O => []
  | S k' => AWorker i :: AWorker i :: expandSchedule i k'
  end.

(** Jobs that exist and have not resolved, as the WaitGroup should count
    them: queued, held by a worker, registered but not yet sent. *)
Definition held (pc : WorkerPC) : Z :=
  match pc with
  | WRecv | WExit => 0
  | WProc _ | WLoop _ => 1
  | WSend _ _ => 2
  end.

Definition inFlight (pc : WorkerPC) : bool :=
  match pc with
  | WRecv | WExit => false
  | _ => true
  end.

Fixpoint heldBy (ws : list WorkerPC) : Z :=
  match ws with
  | [] => 0
  | pc :: rest => held pc + heldBy rest
  end.

Definition seedRegistered (pc : MainPC) : Z :=
  match pc with MSeed _ => 1 | _ => 0 end.

Definition outstanding (m : Machine) : Z :=
  Z.of_nat (length (jobs m)) + heldBy (pool m) + seedRegistered (mainPC m).

(** The WaitGroup counts the outstanding jobs, and [performMove] is past
    [jobsWg.Wait()] only when there are none. *)
Definition Synced (m : Machine) : Prop :=
  jobsWg m = outstanding m /\
  match mainPC m with
  | MRegister _ => jobsWg m = 0 /\ jobsClosed m = false
  | MSeed _ | MWait => jobsClosed m = false
  | MClose => jobsWg m = 0 /\ jobsClosed m = false
  | MFinish => jobsWg m = 0 /\ jobsClosed m = true
  | MReturned r => jobsWg m = 0 /\ jobsClosed m = true /\ r = finalError (stats (world m))
  end.

(** What the counters of a run of [n] steps satisfy, as long as [n] is below
    the range of [int64]. *)
Definition Counted (opts : Options) (n : Z) (s : Statistics) : Prop :=
  0 <= Errors s <= n /\
  0 <= FilesMoved s /\
  0 <= FilesSkipped s /\
  FilesMoved s + FilesSkipped s <= FilesChecked s /\
  FilesChecked s <= FilesMoved s + FilesSkipped s + Errors s /\
  FilesChecked s <= n /\
  (DryRun opts = true -> FilesChecked s = FilesMoved s + FilesSkipped s).

Definition Tallied (n : Z) (m : Machine) : Prop :=
  n < 2 ^ 63 -> Counted (options m) n (stats (world m)).

(** In a dry run the file system stays the one [performMove] was given. *)
Definition Untouched (fs0 : FS) (m : Machine) : Prop :=
  DryRun (options m) = true ->
  fs (world m) = fs0 /\ renameCalls (log (world m)) = [].

End Engine.

(** ** MemFS: an in-memory file system

    One implementation of [OS], used to run the engine on examples: a table
    from absolute paths (as lists of names) to nodes, with directory
    permissions as far as the examples need them.  A path is resolved
    lexically; a link in the middle of a path is not followed. *)

Module MemFS.

Inductive Perm :=
| Open        (* rwx *)
| ReadOnly    (* r-x: entries cannot be added or removed *)
| Sealed.     (* ---: cannot be listed or passed through *)

Inductive Node :=
| File (content : string)
| Link (dest : string)
| Dir (perm : Perm).

Definition Tree := list (list string * Node).

(** [strings.Split(path, "/")] *)
Fixpoint splitSlash (path cur : string) : list string :=
  match path with
  | EmptyString => [cur]
  | String c rest =>
      if Ascii.eqb c (Ascii.ascii_of_nat 47) then cur :: splitSlash rest ""
      else splitSlash rest (String.append cur (String c ""))
  end.

(** The element loop of [filepath.Clean]; [acc] is the output so far,
    last element first. *)
Fixpoint cleanParts (rooted : bool) (parts acc : list string) : list string :=
  match parts with
  | [] => rev acc
  | p :: rest =>
      if String.eqb p "" || String.eqb p "." then cleanParts rooted rest acc
      else if String.eqb p ".." then
        match acc with
        | top :: acc' =>
            if String.eqb top ".." then cleanParts rooted rest (p :: acc)
            else cleanParts rooted rest acc'
        | [] => if rooted then cleanParts rooted rest []
                else cleanParts rooted rest [p]
        end
      else cleanParts rooted rest (p :: acc)
  end.

(** [filepath.Clean] on Unix *)
Definition Clean (path : string) : string :=
  if String.eqb path "" then "."
  else
    let rooted := String.prefix "/" path in
    let parts := cleanParts rooted (splitSlash path "") [] in
    if rooted then String.append "/" (String.concat "/" parts)
    else match parts with
         | [] => "."
         | _ => String.concat "/" parts
         end.

(** [filepath.Join] of two elements *)
Definition Join (a b : string) : string :=
  if negb (String.eqb a "") then Clean (String.append a (String.append "/" b))
  else if negb (String.eqb b "") then Clean b
  else "".

(** The names of a path from the root; the working directory is the root. *)
Definition resolve (path : string) : list string :=
  cleanParts true (splitSlash path "") [].

Fixpoint eqNames (a b : list string) : bool :=
  match a, b with
  | [], [] => true
  | x :: a', y :: b' => String.eqb x y && eqNames a' b'
  | _, _ => false
  end.

Fixpoint isPrefix (a b : list string) : bool :=
  match a, b with
  | [], _ => true
  | x :: a', y :: b' => String.eqb x y && isPrefix a' b'
  | _ :: _, [] => false
  end.

Fixpoint find (names : list string) (t : Tree) : option Node :=
  match t with
  | [] => None
  | (k, n) :: rest => if eqNames k names then Some n else find names rest
  end.

(** Passing through the directories above a path. *)
Fixpoint walk (t : Tree) (seen todo : list string) : option Errno :=
  match todo with
  | [] => None
  | name :: rest =>
      match find seen t with
      | Some (Dir Sealed) => Some EACCES
      | Some (Dir _) =>
          match rest with
          | [] => None
          | _ => walk t (seen ++ [name]) rest
          end
      | Some _ => Some ENOTDIR
      | None => Some ENOENT
      end
  end.

Definition permBits (p : Perm) : Z :=
  match p with
  | Open => 493       (* 0755 *)
  | ReadOnly => 365   (* 0555 *)
  | Sealed => 0
  end.

Definition info (n : Node) : FileInfo :=
  match n with
  | File content => mkFileInfo 420 (Z.of_nat (String.length content))            (* 0644 *)
  | Link dest => mkFileInfo (Z.lor ModeSymlink 511) (Z.of_nat (String.length dest)) (* 0777 *)
  | Dir p => mkFileInfo (Z.lor ModeDir (permBits p)) 4096
  end.

Definition Lstat (t : Tree) (path : string) : result FileInfo :=
  let names := resolve path in
  match walk t [] names with
  | Some e => Err e
  | None =>
      match find names t with
      | Some n => Ok (info n)
      | None => Err ENOENT
      end
  end.

Fixpoint insertSorted (name : string) (sorted : list string) : list string :=
  match sorted with
  | [] => [name]
  | x :: rest => if String.leb name x then name :: sorted else x :: insertSorted name rest
  end.

(** The entries directly under [names], sorted by name as [os.ReadDir] does. *)
Fixpoint entriesOf (names : list string) (t : Tree) : list string :=
  match t with
  | [] => []
  | (k, _) :: rest =>
      if isPrefix names k && Nat.eqb (length k) (S (length names))
      then insertSorted (List.last k "") (entriesOf names rest)
      else entriesOf names rest
  end.

Definition ReadDir (t : Tree) (path : string) : result (list string) :=
  let names := resolve path in
  match walk t [] names with
  | Some e => Err e
  | None =>
      match find names t with
      | Some (Dir Sealed) => Err EACCES
      | Some (Dir _) => Ok (entriesOf names t)
      | Some _ => Err ENOTDIR
      | None => Err ENOENT
      end
  end.

Definition isDirNode (n : option Node) : bool :=
  match n with Some (Dir _) => true | _ => false end.

Definition writable (n : option Node) : bool :=
  match n with Some (Dir Open) => true | _ => false end.

(** Every entry at or under [from] goes to the same place under [to]. *)
Definition rekey (from to : list string) (t : Tree) : Tree :=
  List.map (fun e : list string * Node =>
              if isPrefix from (fst e)
              then (to ++ skipn (length from) (fst e), snd e)
              else e) t.

Definition Rename (t : Tree) (source target : string) : Tree * option Errno :=
  let from := resolve source in
  let to := resolve target in
  match walk t [] from, walk t [] to with
  | Some e, _ | None, Some e => (t, Some e)
  | None, None =>
      match find from t with
      | None => (t, Some ENOENT)
      | Some n =>
          if eqNames from to then (t, None)
          else if isPrefix from to then (t, Some EACCES)
          else if negb (writable (find (removelast from) t) && writable (find (removelast to) t))
          then (t, Some EACCES)
          else
            match find to t with
            | Some old =>
                if isDirNode (Some n) || isDirNode (Some old) then (t, Some EEXIST)
                else (rekey from to (List.filter (fun e => negb (eqNames (fst e) to)) t), None)
            | None => (rekey from to t, None)
            end
      end
  end.

#[export] Instance memOS : OS Tree := Build_OS Tree Lstat ReadDir Rename Join.

End MemFS.

(** ** Example file trees *)

Module Examples.
Import MemFS.

Definition defaults : Options := mkOptions 2 10000 false false false.
Definition dryRun : Options := mkOptions 2 10000 false false true.

Definition fresh (t : Tree) : World := mkWorld t zeroStatistics [].

(** /src holds a file, a link to it and a directory with a link inside;
    /dst holds a file of the same name. *)
Definition mixed : Tree :=
  [ ([], Dir Open);
    (["src"], Dir Open);
    (["src"; "a.txt"], File "fresh");
    (["src"; "link.txt"], Link "/src/a.txt");
    (["src"; "new"], Dir Open);
    (["src"; "new"; "inner.lnk"], Link "/src/a.txt");
    (["src"; "b.txt"], File "content");
    (["dst"], Dir Open);
    (["dst"; "a.txt"], File "old") ].

(** /dst cannot be written to. *)
Definition readOnlyTarget : Tree :=
  [ ([], Dir Open);
    (["src"], Dir Open);
    (["src"; "f"], File "data");
    (["dst"], Dir ReadOnly) ].

(** /src/vault exists on both sides and cannot be listed or searched. *)
Definition sealed : Tree :=
  [ ([], Dir Open);
    (["src"], Dir Open);
    (["src"; "vault"], Dir Sealed);
    (["src"; "vault"; "f"], File "data");
    (["src"; "g"], File "123456789");
    (["dst"], Dir Open);
    (["dst"; "vault"], Dir Sealed);
    (["dst"; "vault"; "g"], File "x") ].

(** The root given as a link to a directory, and as a plain file. *)
Definition roots : Tree :=
  [ ([], Dir Open);
    (["real"], Dir Open);
    (["srclink"], Link "/real");
    (["file.txt"], File "content");
    (["dst"], Dir Open) ].

(** The trees of three tests of the repository: skip_symlinks,
    skip_existing_files_and_move_only_new_ones and
    dry_run_does_not_move_files. *)
Definition withLinks : Tree :=
  [ ([], Dir Open);
    (["src"], Dir Open);
    (["src"; "original.txt"], File "content");
    (["src"; "link.txt"], Link "/src/original.txt");
    (["src"; "dir"], Dir Open);
    (["src"; "dirlink"], Link "/src/dir");
    (["dst"], Dir Open) ].

Definition overlapping : Tree :=
  [ ([], Dir Open);
    (["src"], Dir Open);
    (["src"; "dir1"], Dir Open);
    (["src"; "dir1"; "existing.txt"], File "new_content");
    (["src"; "dir1"; "new.txt"], File "new_file");
    (["dst"], Dir Open);
    (["dst"; "dir1"], Dir Open);
    (["dst"; "dir1"; "existing.txt"], File "old_content") ].

Definition twoLevels : Tree :=
  [ ([], Dir Open);
    (["src"], Dir Open);
    (["src"; "file.txt"], File "content");
    (["src"; "dir1"], Dir Open);
    (["src"; "dir1"; "file2.txt"], File "content2");
    (["dst"], Dir Open) ].

(** The machine [performMove] starts on a tree. *)
Definition start (t : Tree) (source target : string) (opts : Options) : Machine :=
  mkMachine opts (mkWorld t zeroStatistics [SysLstat source; SysLstat target])
            [] (if Buffer opts =? 0 then 100000 else Buffer opts) false 0
            (replicate (Z.to_nat (Workers opts)) WRecv)
            (MRegister (mkJob source target)) false.

Definition canMove (m : Machine) (a : Actor) : bool :=
  match step a m with Next _ => true | _ => false end.

(** A round-robin scheduler: the first goroutine of [order] that can move
    does, and goes to the back of the line. *)
Fixpoint roundRobin (fuel : nat) (order : list Actor) (m : Machine) : list Actor :=
  match fuel with
  | O => []
  | S fuel' =>
      match List.find (canMove m) order with
      | None => []
      | Some a =>
          match step a m with
          | Next m' =>
              a :: roundRobin fuel'
                     (List.filter (fun b => negb (canMove m b && canMove m' b)) order
                      ++ List.filter (fun b => canMove m b && canMove m' b) order) m'
          | _ => []
          end
      end
  end.

Definition after (schedule : list Actor) (m0 : Machine) : Machine :=
  match exec schedule m0 with
  | Some m => m
  | None => m0
  end.

Definition everyone : list Actor := [AMain; AWorker 0; AWorker 1].

(** The file system a whole run leaves, under the round-robin scheduler. *)
Definition runTest (t : Tree) (opts : Options) : option (option MoveError * Tree) :=
  let m0 := start t "/src" "/dst" opts in
  let m := after (roundRobin 500 everyone m0) m0 in
  match mainPC m with
  | MReturned r => Some (r, fs (world m))
  | _ => None
  end.

(** [assertFileContent], [assertNotExists] and [assertSymlinkExists] of the
    tests. *)
Definition fileContent (t : Tree) (path : string) : option string :=
  match Lstat t path, find (resolve path) t with
  | Ok _, Some (File content) => Some content
  | _, _ => None
  end.

Definition notExists (t : Tree) (path : string) : bool :=
  match Lstat t path with
  | Err ENOENT => true
  | _ => false
  end.

Definition symlinkExists (t : Tree) (path : string) : bool :=
  match Lstat t path with
  | Ok i => isSymlink i
  | Err _ => false
  end.

(** Merging /src into /dst on [mixed], for real and as a dry run. *)
Definition mergeStart : Machine := start mixed "/src" "/dst" defaults.
Definition mergeSchedule : list Actor :=
  Eval vm_compute in roundRobin 200 everyone mergeStart.
Definition mergeEnd : Machine := after mergeSchedule mergeStart.

Definition dryStart : Machine := start mixed "/src" "/dst" dryRun.
Definition drySchedule : list Actor :=
  Eval vm_compute in roundRobin 200 everyone dryStart.
Definition dryEnd : Machine := after drySchedule dryStart.

(** The same merge stopped when worker 0 has registered the first child of
    /src and not yet sent it. *)
Definition midSchedule : list Actor := [AMain; AMain; AWorker 0; AWorker 0; AWorker 0].
Definition midExpansion : Machine := after midSchedule mergeStart.

(** Merging into a directory that cannot be written to. *)
Definition deniedStart : Machine := start readOnlyTarget "/src" "/dst" defaults.
Definition deniedSchedule : list Actor :=
  Eval vm_compute in roundRobin 200 everyone deniedStart.
Definition deniedEnd : Machine := after deniedSchedule deniedStart.

(** Merging /src into itself, the source written with a trailing slash. *)
Definition selfStart : Machine := start mixed "/src/" "/src" defaults.
Definition selfSchedule : list Actor :=
  Eval vm_compute in roundRobin 200 everyone selfStart.
Definition selfEnd : Machine := after selfSchedule selfStart.

End Examples.

(** ** More of the engine: what a run shows from outside *)

Section Observations.

Context {FS : Type} {os : OS FS}.
Implicit Types (w : @World FS) (m : @Machine FS).

(** [stats.c], by the name of the field. *)
Definition counter (c : Counter) (s : Statistics) : Z :=
  match c with
  | CDirsChecked => DirsChecked s
  | CDirsSkipped => DirsSkipped s
  | CDirsMoved => DirsMoved s
  | CFilesChecked => FilesChecked s
  | CFilesSkipped => FilesSkipped s
  | CFilesMoved => FilesMoved s
  | CBytesMoved => BytesMoved s
  | CSymlinksSkipped => SymlinksSkipped s
  | CErrors => Errors s
  end.

Definition isFailedRename (e : Event) : bool :=
  match e with SysRename _ _ (Some _) => true | _ => false end.

Definition isDoneRename (e : Event) : bool :=
  match e with SysRename _ _ None => true | _ => false end.

(** How many [os.Rename] calls of a log failed, and how many succeeded. *)
Definition failures (log : list Event) : Z :=
  Z.of_nat (length (List.filter isFailedRename log)).

Definition successes (log : list Event) : Z :=
  Z.of_nat (length (List.filter isDoneRename log)).

(** The calls to the operating system in a log, without the printed lines. *)
Definition isSyscall (e : Event) : bool :=
  match e with Stdout _ | Stderr _ => false | _ => true end.

Definition syscalls (log : list Event) : list Event := List.filter isSyscall log.

(** The books of a run of [n] steps: every counter that goes up by one is
    between 0 and [n]; a directory or file that was checked and neither
    moved nor skipped is a rename that failed; every failed rename is an
    error; outside dry-run every move counted is a rename that succeeded. *)
Definition Ledger (opts : Options) (n : Z) w : Prop :=
  let s := stats w in
  (0 <= DirsChecked s <= n /\ 0 <= DirsSkipped s /\ 0 <= DirsMoved s /\
   0 <= FilesChecked s <= n /\ 0 <= FilesSkipped s /\ 0 <= FilesMoved s /\
   0 <= SymlinksSkipped s <= n /\ 0 <= Errors s <= n) /\
  DirsChecked s + FilesChecked s + SymlinksSkipped s <= n /\
  DirsMoved s + DirsSkipped s <= DirsChecked s /\
  FilesMoved s + FilesSkipped s <= FilesChecked s /\
  (DirsChecked s - DirsMoved s - DirsSkipped s)
    + (FilesChecked s - FilesMoved s - FilesSkipped s) = failures (log w) /\
  failures (log w) <= Errors s /\
  (if DryRun opts then renameCalls (log w) = []
   else DirsMoved s + FilesMoved s = successes (log w)).

Definition Booked (n : Z) m : Prop :=
  n < 2 ^ 63 -> Ledger (options m) n (world m).

(** No counter that goes up by one has gone down from [s] to [s']. *)
Definition Grown (s s' : Statistics) : Prop :=
  forall c, c <> CBytesMoved -> counter c s <= counter c s'.

(** The channel holds no more than its capacity, and the pool keeps its
    size. *)
Definition Bounded (capacity : Z) (workers : nat) m : Prop :=
  bufferSize m = capacity /\
  Z.of_nat (length (jobs m)) <= capacity /\
  length (pool m) = workers.

(** A machine with no worker: [performMove] gets as far as
    [jobsWg.Wait()], with the seed job registered and never taken. *)
Definition Stranded (w0 : @World FS) m : Prop :=
  pool m = [] /\
  fs (world m) = fs w0 /\ stats (world m) = stats w0 /\
  syscalls (log (world m)) = syscalls (log w0) /\
  match mainPC m with
  | MRegister _ => jobsWg m = 0 /\ jobs m = []
  | MSeed _ => jobsWg m = 1 /\ jobs m = []
  | MWait => jobsWg m = 1
  | _ => False
  end.

(** No worker has left its loop while the channel is open, and the reporter
    has been stopped by the time [performMove] returns. *)
Definition Orderly m : Prop :=
  (jobsClosed m = false -> Forall (fun pc => pc <> WExit) (pool m)) /\
  match mainPC m with
  | MReturned _ => Stats (options m) = true -> statsDone m = true
  | _ => True
  end.

(** A job whose two paths are the same string. *)
Definition selfJob (j : Job) : Prop := SourcePath j = TargetPath j.

(** A machine in which every job is such a job: the world stays as it was
    and no worker has anything to register. *)
Definition SelfMerge (w0 : @World FS) m : Prop :=
  fs (world m) = fs w0 /\ stats (world m) = stats w0 /\
  syscalls (log (world m)) = syscalls (log w0) /\
  Forall selfJob (jobs m) /\
  Forall (fun pc => match pc with
                    | WProc j => selfJob j
                    | WLoop l => l = []
                    | WSend _ _ => False
                    | _ => True
                    end) (pool m) /\
  match mainPC m with
  | MRegister j | MSeed j => selfJob j
  | _ => True
  end.

(** [filepath.Join(... filepath.Join(root, n1) ..., nk)] *)
Definition descend (root : string) (names : list string) : string :=
  List.fold_left Join names root.

(** What the engine relies on in [filepath.Join] and [os.ReadDir].
    [Canonical] holds of the roots as [cleanPath] returns them, [Entry] of
    the names a directory can hold and [Sound] of the states of the file
    system: joining an entry name to a canonical path gives a canonical
    path, two different canonical paths stay different when the same entry
    name is joined to each, [os.ReadDir] returns entry names, and
    [os.Rename] leaves the file system sound. *)
Record PathLaws (Canonical Entry : string -> Prop) (Sound : FS -> Prop) : Prop := {
  join_canonical :
    forall a n, Canonical a -> Entry n -> Canonical (Join a n);
  join_injective :
    forall a b n, Canonical a -> Canonical b -> Entry n ->
                  Join a n = Join b n -> a = b;
  readDir_entries :
    forall f p names, Sound f -> ReadDir f p = Ok names -> Forall Entry names;
  rename_sound :
    forall f s t, Sound f -> Sound (fst (Rename f s t));
}.

(** A job for the same place under the source and under the target: the
    same entry names lead to it from the one root and from the other. *)
Definition Mirrors (Entry : string -> Prop) (source target : string) (j : Job) : Prop :=
  exists names,
    Forall Entry names /\
    SourcePath j = descend source names /\ TargetPath j = descend target names.

(** A rename from a place under the source to the same place under the
    target; a listing of a place under the source. *)
Definition mirroredCall (Entry : string -> Prop) (source target : string) (e : Event) : Prop :=
  match e with
  | SysRename a b _ =>
      exists names,
        Forall Entry names /\ a = descend source names /\ b = descend target names
  | SysReadDir p => exists names, Forall Entry names /\ p = descend source names
  | _ => True
  end.

(** The jobs a worker has in hand. *)
Definition carried (pc : WorkerPC) : list Job :=
  match pc with
  | WProc job => [job]
  | WLoop newJobs => newJobs
  | WSend newJob rest => newJob :: rest
  | _ => []
  end.

Definition seedOf (pc : MainPC) : list Job :=
  match pc with
  | MRegister seed | MSeed seed => [seed]
  | _ => []
  end.

Definition Mirrored (Entry : string -> Prop) (Sound : FS -> Prop)
    (source target : string) m : Prop :=
  Sound (fs (world m)) /\
  Forall (mirroredCall Entry source target) (log (world m)) /\
  Forall (Mirrors Entry source target) (jobs m) /\
  Forall (fun pc => Forall (Mirrors Entry source target) (carried pc)) (pool m) /\
  Forall (Mirrors Entry source target) (seedOf (mainPC m)).

(** A machine whose only job is [seed]: no worker has a child to register. *)
Definition OnlySeed (seed : Job) m : Prop :=
  Forall (eq seed) (jobs m) /\
  Forall (fun pc => match pc with
                    | WProc j => j = seed
                    | WLoop l => l = []
                    | WSend _ _ => False
                    | _ => True
                    end) (pool m) /\
  Forall (eq seed) (seedOf (mainPC m)).

(** The reporter as the scheduler may run it.  [select] takes any case that
    is ready, so a tick that is pending when [statsDone] is closed can still
    be served: a progress line can follow [close(statsDone)], and the return
    of [performMove]. *)
Definition lateReporter m : Outcome :=
  if Stats (options m)
  then Next (setWorld m (snd (emit (Stdout (Progress (stats (world m)))) (world m))))
  else Blocked.

(** A progress line of the reporter. *)
Definition isProgress (e : Event) : Prop := exists s, e = Stdout (Progress s).

Definition lateStep (a : Actor) m : Outcome :=
  match a with
  | AReporter => lateReporter m
  | _ => step a m
  end.

Fixpoint lateExec (schedule : list Actor) m : option Machine :=
  match schedule with
  | [] => Some m
  | a :: rest =>
      match lateStep a m with
      | Next m' => lateExec rest m'
      | _ => None
      end
  end.

(** The options without [--verbose] and [--stats]; a schedule without the
    reporter; a world and a machine without the printed lines. *)
Definition quiet (opts : Options) : Options :=
  mkOptions (Workers opts) (Buffer opts) false false (DryRun opts).

Definition notReporter (a : Actor) : bool :=
  match a with AReporter => false | _ => true end.

Definition hushWorld w : World :=
  mkWorld (fs w) (stats w) (syscalls (log w)).

Definition hush m : Machine :=
  mkMachine (quiet (options m)) (hushWorld (world m)) (jobs m) (bufferSize m)
            (jobsClosed m) (jobsWg m) (pool m) (mainPC m) false.

(** One worker, and a root whose children do not fit in the channel: the
    worker holds the seed job for ever, the children it has sent so far in
    the channel and the others in hand. *)
Definition Clogged (fs0 : FS) (seed : Job) (children : list Job) m : Prop :=
  jobsClosed m = false /\ fs (world m) = fs0 /\
  match mainPC m, pool m with
  | MRegister j, [WRecv] | MSeed j, [WRecv] => j = seed /\ jobs m = []
  | MWait, [WRecv] => jobs m = [seed]
  | MWait, [WProc j] => j = seed /\ jobs m = []
  | MWait, [WLoop rest] => jobs m ++ rest = children
  | MWait, [WSend j rest] => jobs m ++ j :: rest = children
  | _, _ => False
  end.

End Observations.

(** * The command line *)

(** [path/filepath], as [cleanPath] uses it.  [Abs] reads the working
    directory of the process, which no step of the program changes. *)
Class Filepath := {
  Clean : string -> string;
  IsAbs : string -> bool;
  Abs : string -> result string;
}.

(** The flags of [rootCmd], as [cmd.Flags()] returns them. *)
Record Flags := mkFlags {
  workersFlag : Z;
  bufferFlag : Z;
  statsFlag : bool;
  verboseFlag : bool;
  dryRunFlag : bool;
}.

(** The defaults given in [init]. *)
Definition defaultFlags : Flags := mkFlags 0 100000 false false false.

Section CommandLine.

Context {FS : Type} {os : OS FS} {fp : Filepath}.

Definition cleanPath (p : string) : string :=
  let cleaned := Clean p in
  if negb (IsAbs cleaned) then
    match Abs cleaned with
    | Ok abs => abs
    | Err _ => cleaned
    end
  else cleaned.

(** [runMove]; [cobra.ExactArgs(2)] gives it two arguments, and [NumCPU] is
    what [runtime.NumCPU()] returns. *)
Definition runMove (NumCPU : Z) (fs0 : FS) (flags : Flags) (arg0 arg1 : string) : Start :=
  let source := cleanPath arg0 in
  let target := cleanPath arg1 in
  let workers := workersFlag flags in
  let workers := if workers =? 0 then NumCPU else workers in
  let opts := mkOptions workers (bufferFlag flags) (statsFlag flags)
                        (verboseFlag flags) (dryRunFlag flags) in
  performMove fs0 source target opts.

End CommandLine.

(** [path/filepath] on Unix for a process whose [os.Getwd] returns [wd]. *)
Definition unixPath (wd : result string) : Filepath :=
  Build_Filepath
    MemFS.Clean
    (String.prefix "/")
    (fun path =>
       if String.prefix "/" path then Ok (MemFS.Clean path)
       else match wd with
            | Ok dir => Ok (MemFS.Join dir path)
            | Err e => Err e
            end).


(** ** Paths and trees of the in-memory file system *)

Module MemPaths.
Import MemFS.

Abbreviation Slash := (Ascii.ascii_of_nat 47).

Fixpoint slashFree (s : string) : bool :=
  match s with
  | EmptyString => true
  | String c rest => negb (Ascii.eqb c Slash) && slashFree rest
  end.

Abbreviation SlashFree := (fun c : string => slashFree c = true).

(** A name as a directory holds it: without a slash, and not empty, [.] or
    [..]. *)
Definition entryName (s : string) : bool :=
  slashFree s && negb (String.eqb s "" || String.eqb s "." || String.eqb s "..").

Abbreviation EntryName := (fun c : string => entryName c = true).

(** A tree whose keys are made of such names. *)
Definition wellFormed (t : Tree) : bool :=
  List.forallb (fun e : list string * Node => List.forallb entryName (fst e)) t.

(** An absolute path that [filepath.Clean] leaves as it is: what
    [cleanPath] returns when the working directory is known. *)
Definition isCanonical (p : string) : bool :=
  String.prefix "/" p && String.eqb (Clean p) p.

End MemPaths.

(** ** More runs on the example trees *)

Module MoreExamples.
Import MemFS Examples.

(** [--verbose], and [--stats --verbose]. *)
Definition noisy : Options := mkOptions 2 10000 false true false.
Definition loud : Options := mkOptions 2 10000 true true false.

(** No worker at all; one worker with a channel of two jobs. *)
Definition idle : Options := mkOptions 0 10000 false false false.
Definition narrow : Options := mkOptions 1 2 false false false.

(** The merge of [mixed] from [midExpansion] on. *)
Definition midRest : list Actor :=
  Eval vm_compute in roundRobin 200 everyone midExpansion.
Definition midEnd : Machine := after midRest midExpansion.

(** The merge of [mixed] under [--stats --verbose] with [performMove]
    returning before the workers have seen the channel closed; after it
    the workers leave, and the reporter still prints twice. *)
Definition lateAfter (schedule : list Actor) (m0 : Machine) : Machine :=
  match lateExec schedule m0 with
  | Some m => m
  | None => m0
  end.

Definition loudReturn : list Actor :=
  AReporter :: List.flat_map (fun a => [a; AReporter]) (firstn 25 mergeSchedule)
    ++ [AMain; AMain; AMain].
Definition loudStart : Machine := start mixed "/src" "/dst" loud.
Definition loudReturned : Machine := lateAfter loudReturn loudStart.
Definition leaving : list Actor := [AReporter; AWorker 1; AReporter; AWorker 0].
Definition loudLeft : Machine := lateAfter leaving loudReturned.

(** The merge of [mixed] at the point where a worker holds the job for the
    link /src/link.txt. *)
Definition linkSchedule : list Actor := firstn 17 mergeSchedule.
Definition linkHeld : Machine := after linkSchedule mergeStart.

(** [performMove] without workers, as far as it gets. *)
Definition idleStart : Machine := start mixed "/src" "/dst" idle.
Definition idleSchedule : list Actor :=
  Eval vm_compute in roundRobin 200 everyone idleStart.
Definition idleEnd : Machine := after idleSchedule idleStart.

(** /src merged into /src. *)
Definition sameStart : Machine := start mixed "/src" "/src" defaults.
Definition sameSchedule : list Actor :=
  Eval vm_compute in roundRobin 200 everyone sameStart.
Definition sameEnd : Machine := after sameSchedule sameStart.

(** The merge of [mixed] with the reporter ticking between the steps. *)
Definition loudSchedule : list Actor :=
  AReporter :: List.flat_map (fun a => [a; AReporter]) (firstn 25 mergeSchedule)
    ++ skipn 25 mergeSchedule.
Definition loudEnd : Machine := after loudSchedule loudStart.

(** The four entries of /src through a channel of two. *)
Definition narrowStart : Machine := start mixed "/src" "/dst" narrow.
Definition narrowSchedule : list Actor :=
  Eval vm_compute in roundRobin 200 everyone narrowStart.
Definition narrowEnd : Machine := after narrowSchedule narrowStart.

(** [mvmv /src/ src] and [mvmv -w -1 /src /dst], run in the root directory
    on a machine with two cores. *)
Definition inRoot : Filepath := unixPath (Ok "/").
Definition fromFlags (flags : Flags) : Options :=
  mkOptions (if workersFlag flags =? 0 then 2 else workersFlag flags)
            (bufferFlag flags) (statsFlag flags) (verboseFlag flags)
            (dryRunFlag flags).
Definition twiceStart : Machine := start mixed "/src" "/src" (fromFlags defaultFlags).
Definition twiceSchedule : list Actor :=
  Eval vm_compute in roundRobin 200 everyone twiceStart.
Definition twiceEnd : Machine := after twiceSchedule twiceStart.

(** [mvmv /src /dst] with the flags at their defaults. *)
Definition flagStart : Machine := start mixed "/src" "/dst" (fromFlags defaultFlags).
Definition flagEnd : Machine := after mergeSchedule flagStart.

Definition minusOne : Flags := mkFlags (-1) 100000 false false false.
Definition minusStart : Machine := start mixed "/src" "/dst" (fromFlags minusOne).
Definition minusSchedule : list Actor :=
  Eval vm_compute in roundRobin 200 everyone minusStart.
Definition minusEnd : Machine := after minusSchedule minusStart.

End MoreExamples.

(** * Properties *)

(** ** int64 arithmetic and logs *)

Lemma wrap64_small z : - 2 ^ 63 <= z < 2 ^ 63 -> wrap64 z = z.
Proof.
  intros Hz. unfold wrap64.
  rewrite Z.mod_small by lia. lia.
Qed.

Lemma add64_succ x : 0 <= x < 2 ^ 63 - 1 -> add64 x 1 = x + 1.
Proof. intros Hx. unfold add64. apply wrap64_small. lia. Qed.

Lemma renameCalls_snoc l e :
  renameCalls (l ++ [e]) = renameCalls l ++ (if isRename e then [e] else []).
Proof.
  unfold renameCalls. rewrite List.filter_app. simpl.
  destruct (isRename e); reflexivity.
Qed.

Lemma eqb_false_of_neq (s t : string) : s <> t -> String.eqb s t = false.
Proof. apply String.eqb_neq. Qed.

Section JobProperties.

Context {FS : Type} {os : OS FS}.
Implicit Types (w : @World FS) (opts : Options) (s t : string).

Ltac unfold_job :=
  unfold processPath, processDir, processFile, bind, lstat, readDir, rename,
    AddInt64, verbose, emit, ret.

(** Settles a goal about one branch of the job body once the tests on the
    source and the target are decided. *)
Ltac finish_job :=
  repeat (cbn;
          match goal with
          | H : Rename ?f ?s ?t = _ |- context [Rename ?f ?s ?t] => rewrite H
          | |- context [Rename ?f ?s ?t] => destruct (Rename f s t) as [? [?|]] eqn:?
          | |- context [Verbose ?o] => destruct (Verbose o)
          end);
  cbn; rewrite ?renameCalls_snoc, ?app_nil_r; cbn; rewrite ?app_nil_r; auto.

(** A job whose two paths are the same string does nothing at all. *)
Lemma processPath_same_path opts w s :
  processPath s s opts w = ([], w).
Proof. unfold processPath. rewrite String.eqb_refl. reflexivity. Qed.

(** A test on the target is only reached with two different paths. *)
Lemma lstat_differs (f : FS) s t info e :
  Lstat f s = Ok info -> Lstat f t = Err e -> s <> t.
Proof. intros Hs Ht ->. congruence. Qed.

(** The body of [processDir] never touches the byte counter. *)
Lemma processDir_bytes s t te opts w :
  BytesMoved (stats (snd (processDir s t te opts w))) = BytesMoved (stats w).
Proof.
  unfold_job. destruct w as [f [dc ds dm fc fsk fm bm ss er] l].
  destruct te; cbn.
  - destruct (ReadDir f s); finish_job.
  - destruct (DryRun opts); finish_job.
Qed.

(** The body of a job whose source is a symbolic link: no child job, no
    rename, the file system as it was; when its two paths differ, the
    symlinks-skipped counter, and no other, goes up by one. *)
Lemma link_job opts w s t info :
  Lstat (fs w) s = Ok info ->
  isSymlink info = true ->
  let r := processPath s t opts w in
  fst r = [] /\
  renameCalls (log (snd r)) = renameCalls (log w) /\
  fs (snd r) = fs w /\
  (s <> t -> stats (snd r) = addCounter CSymlinksSkipped 1 (stats w)).
Proof.
  intros Hs Hlink r. subst r.
  destruct (String.eqb_spec s t) as [->|Hne].
  - rewrite processPath_same_path. cbn. intuition congruence.
  - unfold_job. rewrite (eqb_false_of_neq _ _ Hne). cbn.
    rewrite Hs, Hlink. destruct (Verbose opts); cbn;
      rewrite ?renameCalls_snoc, ?app_nil_r; cbn; rewrite ?app_nil_r; auto.
Qed.

(** C2 (amended): a job whose source is a directory, not a link, and whose
    two paths differ.  Target absent: no child jobs, and exactly one rename
    of the directory unless dry-run is on, when there is none.  Target
    present: no rename, the file system untouched, and one child job per
    name that listing the source returns, pairing source/name with
    target/name (none for an empty directory); when the listing fails, no
    child job and one more error. *)
Theorem directory_job opts w s t info :
  s <> t ->
  Lstat (fs w) s = Ok info ->
  isSymlink info = false ->
  IsDir info = true ->
  let r := processPath s t opts w in
  (isOk (Lstat (fs w) t) = false ->
     fst r = [] /\
     renameCalls (log (snd r)) = renameCalls (log w) ++ moveCall opts w s t) /\
  (isOk (Lstat (fs w) t) = true ->
     renameCalls (log (snd r)) = renameCalls (log w) /\
     fs (snd r) = fs w /\
     match ReadDir (fs w) s with
     | Ok names =>
         fst r = List.map (fun name => mkJob (Join s name) (Join t name)) names
     | Err _ =>
         fst r = [] /\
         Errors (stats (snd r)) = add64 (Errors (stats w)) 1
     end).
Proof.
  intros Hne Hs Hlink Hdir r. subst r.
  unfold moveCall. unfold_job. rewrite (eqb_false_of_neq _ _ Hne). cbn.
  rewrite Hs, Hlink, Hdir.
  destruct w as [f [dc ds dm fc fsk fm bm ss er] l]; cbn in *.
  split; intros Ht; rewrite Ht; cbn.
  - destruct (DryRun opts); finish_job.
  - destruct (ReadDir f s); finish_job.
Qed.

(** C3 (amended): a job whose source is neither a directory nor a link, and
    whose two paths differ, never produces child jobs and counts one file
    checked.  Target present: no rename, the file system untouched, one
    more file skipped.  Target absent: not counted as skipped, and one
    rename from source to target unless dry-run is on, when there is none. *)
Theorem file_job opts w s t info :
  s <> t ->
  Lstat (fs w) s = Ok info ->
  isSymlink info = false ->
  IsDir info = false ->
  let r := processPath s t opts w in
  fst r = [] /\
  FilesChecked (stats (snd r)) = add64 (FilesChecked (stats w)) 1 /\
  (isOk (Lstat (fs w) t) = true ->
     renameCalls (log (snd r)) = renameCalls (log w) /\
     fs (snd r) = fs w /\
     FilesSkipped (stats (snd r)) = add64 (FilesSkipped (stats w)) 1) /\
  (isOk (Lstat (fs w) t) = false ->
     renameCalls (log (snd r)) = renameCalls (log w) ++ moveCall opts w s t /\
     FilesSkipped (stats (snd r)) = FilesSkipped (stats w)).
Proof.
  intros Hne Hs Hlink Hdir r. subst r.
  unfold moveCall. unfold_job. rewrite (eqb_false_of_neq _ _ Hne). cbn.
  rewrite Hs, Hlink, Hdir.
  destruct w as [f [dc ds dm fc fsk fm bm ss er] l]; cbn in *.
  destruct (isOk (Lstat f t)); cbn.
  - finish_job; repeat split; intros; try discriminate; reflexivity.
  - destruct (DryRun opts); finish_job; repeat split; intros; try discriminate; reflexivity.
Qed.

(** C9: the target counts as existing exactly when [os.Lstat] on it returns
    no error.  On any error, whichever it is, the job takes the move branch:
    no child job, nothing counted as skipped, the rename from source to
    target called (unless dry-run is on) and its outcome counted as a move
    or as an error.  When [os.Lstat] succeeds there is no rename, and the
    entry is counted as skipped. *)
Theorem target_exists_iff_lstat_succeeds opts w s t info :
  Lstat (fs w) s = Ok info ->
  isSymlink info = false ->
  let r := processPath s t opts w in
  (forall e, Lstat (fs w) t = Err e ->
     fst r = [] /\
     DirsSkipped (stats (snd r)) = DirsSkipped (stats w) /\
     FilesSkipped (stats (snd r)) = FilesSkipped (stats w) /\
     renameCalls (log (snd r)) = renameCalls (log w) ++ moveCall opts w s t /\
     match moveOutcome opts w s t with
     | None =>
         if IsDir info
         then DirsMoved (stats (snd r)) = add64 (DirsMoved (stats w)) 1
         else FilesMoved (stats (snd r)) = add64 (FilesMoved (stats w)) 1
     | Some _ => Errors (stats (snd r)) = add64 (Errors (stats w)) 1
     end) /\
  (forall i, Lstat (fs w) t = Ok i ->
     renameCalls (log (snd r)) = renameCalls (log w) /\
     (s <> t ->
      if IsDir info
      then DirsSkipped (stats (snd r)) = add64 (DirsSkipped (stats w)) 1
      else FilesSkipped (stats (snd r)) = add64 (FilesSkipped (stats w)) 1)).
Proof.
  intros Hs Hlink r. subst r. split.
  - intros e Ht. pose proof (lstat_differs _ _ _ _ _ Hs Ht) as Hne.
    unfold moveCall, moveOutcome. unfold_job.
    rewrite (eqb_false_of_neq _ _ Hne). cbn. rewrite Hs, Hlink.
    destruct w as [f [dc ds dm fc fsk fm bm ss er] l]; cbn in *.
    rewrite Ht. cbn.
    destruct (IsDir info); cbn; destruct (DryRun opts); finish_job;
      repeat split; reflexivity.
  - intros i Ht. destruct (String.eqb_spec s t) as [->|Hne].
    + rewrite processPath_same_path. cbn. split; [reflexivity | congruence].
    + unfold_job. rewrite (eqb_false_of_neq _ _ Hne). cbn. rewrite Hs, Hlink.
      destruct w as [f [dc ds dm fc fsk fm bm ss er] l]; cbn in *.
      rewrite Ht. cbn.
      destruct (IsDir info) eqn:Hdir; cbn.
      * destruct (ReadDir f s); finish_job; split; intros; reflexivity.
      * finish_job; split; intros; reflexivity.
Qed.

(** C10: the byte counter moves only in a job that moves one file, and then
    by the size [os.Lstat] gave for that file before the move; [processDir]
    never changes it, so a directory job, renamed as a whole subtree or not,
    adds nothing to it. *)
Theorem bytes_moved_only_by_file_moves opts w s t :
  let r := processPath s t opts w in
  (forall te, BytesMoved (stats (snd (processDir s t te opts w))) = BytesMoved (stats w)) /\
  (forall info, Lstat (fs w) s = Ok info -> IsDir info = true ->
     BytesMoved (stats (snd r)) = BytesMoved (stats w)) /\
  (BytesMoved (stats (snd r)) = BytesMoved (stats w) \/
   exists info,
     Lstat (fs w) s = Ok info /\ IsDir info = false /\ isSymlink info = false /\
     isOk (Lstat (fs w) t) = false /\
     moveOutcome opts w s t = None /\
     FilesMoved (stats (snd r)) = add64 (FilesMoved (stats w)) 1 /\
     BytesMoved (stats (snd r)) = add64 (BytesMoved (stats w)) (Size info)).
Proof.
  intros r. subst r. split; [intros te; apply processDir_bytes|].
  destruct (String.eqb_spec s t) as [->|Hne].
  { rewrite processPath_same_path. cbn. auto. }
  unfold moveOutcome, processPath, bind, lstat.
  rewrite (eqb_false_of_neq _ _ Hne).
  destruct w as [f st l]; cbn [fs stats log fst snd].
  destruct (Lstat f s) as [info|e] eqn:Hs.
  2:{ split; [discriminate|]. left. unfold_job. destruct st. finish_job. }
  destruct (isSymlink info) eqn:Hlink.
  { split; [|left]; intros; unfold_job; destruct st; finish_job. }
  destruct (IsDir info) eqn:Hdir.
  { split; [intros i Hi _|left]; apply processDir_bytes. }
  split; [intros i Hi; injection Hi as <-; congruence|].
  unfold_job. destruct st as [dc ds dm fc fsk fm bm ss er]. cbn.
  destruct (isOk (Lstat f t)) eqn:Ht; cbn.
  { left. finish_job. }
  destruct (DryRun opts) eqn:Hdry; cbn.
  { right. exists info. finish_job; repeat split; auto. }
  destruct (Rename f s t) as [f' [e|]] eqn:Hr; cbn.
  { left. finish_job. }
  right. exists info. finish_job; repeat split; auto.
Qed.

(** With dry-run on, a job changes nothing in the file system and calls no
    rename; it produces the child jobs of the real run, and leaves the
    counters the real run leaves unless the rename of the real run fails. *)
Lemma dry_run_job opts w s t :
  DryRun opts = true ->
  let dry := processPath s t opts w in
  let real := processPath s t (withDryRun false opts) w in
  fs (snd dry) = fs w /\
  renameCalls (log (snd dry)) = renameCalls (log w) /\
  fst dry = fst real /\
  ((forall e, renameCalls (log (snd real)) <>
              renameCalls (log w) ++ [SysRename s t (Some e)]) ->
   stats (snd dry) = stats (snd real)).
Proof.
  intros Hdry dry real. subst dry real.
  destruct (String.eqb_spec s t) as [->|Hne].
  { rewrite !processPath_same_path. cbn. auto. }
  unfold_job. rewrite (eqb_false_of_neq _ _ Hne). cbn. rewrite Hdry.
  destruct w as [f [dc ds dm fc fsk fm bm ss er] l]; cbn in *.
  destruct (Lstat f s) as [info|e]; cbn; [|finish_job].
  destruct (isSymlink info); cbn; [finish_job|].
  destruct (IsDir info); cbn; destruct (isOk (Lstat f t)); cbn;
    try (destruct (ReadDir f s)); finish_job;
    repeat split; auto;
    intros Hfails; exfalso; eapply Hfails; reflexivity.
Qed.

(** A move that ends well is counted: one more directory moved, or one more
    file moved and its size added to the byte counter. *)
Lemma move_counted opts w s t info :
  s <> t ->
  Lstat (fs w) s = Ok info ->
  isSymlink info = false ->
  isOk (Lstat (fs w) t) = false ->
  moveOutcome opts w s t = None ->
  let r := processPath s t opts w in
  if IsDir info
  then DirsMoved (stats (snd r)) = add64 (DirsMoved (stats w)) 1 /\
       BytesMoved (stats (snd r)) = BytesMoved (stats w)
  else FilesMoved (stats (snd r)) = add64 (FilesMoved (stats w)) 1 /\
       BytesMoved (stats (snd r)) = add64 (BytesMoved (stats w)) (Size info).
Proof.
  intros Hne Hs Hlink Ht Hout r. subst r.
  unfold moveOutcome in Hout. unfold_job.
  rewrite (eqb_false_of_neq _ _ Hne). cbn. rewrite Hs, Hlink.
  destruct w as [f [dc ds dm fc fsk fm bm ss er] l]; cbn in *.
  rewrite Ht. cbn.
  destruct (IsDir info); cbn; destruct (DryRun opts); cbn;
    try (destruct (Rename f s t) as [f' [e|]] eqn:Hr; cbn in Hout; try discriminate Hout);
    finish_job.
Qed.

End JobProperties.

(** ** The goroutines: what every run preserves *)

Section RunProperties.

Context {FS : Type} {os : OS FS}.
Implicit Types (m : @Machine FS) (w : @World FS).

Lemma heldBy_nonneg ws : 0 <= heldBy ws.
Proof. induction ws as [|pc ws IH]; cbn; [lia|]. destruct pc; cbn; lia. Qed.

Lemma heldBy_insert ws i pc pc' :
  ws !! i = Some pc ->
  heldBy (<[i := pc']> ws) = heldBy ws - held pc + held pc'.
Proof.
  revert i. induction ws as [|x ws IH]; intros [|i] Hi; try discriminate.
  - cbn in *. injection Hi as ->. lia.
  - change (heldBy (<[S i := pc']> (x :: ws)))
      with (held x + heldBy (<[i := pc']> ws)).
    change (heldBy (x :: ws)) with (held x + heldBy ws).
    rewrite (IH i Hi). lia.
Qed.

Lemma heldBy_lookup ws i pc : ws !! i = Some pc -> held pc <= heldBy ws.
Proof.
  revert i. induction ws as [|x ws IH]; intros [|i] Hi; cbn in *; try discriminate.
  - injection Hi as ->. pose proof (heldBy_nonneg ws). lia.
  - specialize (IH i Hi). destruct x; cbn; lia.
Qed.

Lemma heldBy_replicate n : heldBy (replicate n WRecv) = 0.
Proof. induction n; cbn; lia. Qed.

Lemma inFlight_held pc : inFlight pc = true -> 1 <= held pc.
Proof. destruct pc; cbn; intros; try discriminate; lia. Qed.

Lemma held_zero pc : held pc = 0 -> inFlight pc = false.
Proof. destruct pc; cbn; intros; try reflexivity; lia. Qed.

Lemma synced_zero m :
  Synced m -> jobsWg m = 0 ->
  jobs m = [] /\ forall i pc, pool m !! i = Some pc -> inFlight pc = false.
Proof.
  intros [Hwg _] Hz. unfold outstanding in Hwg.
  pose proof (heldBy_nonneg (pool m)) as Hh.
  assert (0 <= seedRegistered (mainPC m)) by (destruct (mainPC m); cbn; lia).
  split.
  - destruct (jobs m); [reflexivity|]. cbn [length] in Hwg. lia.
  - intros i pc Hi. apply held_zero.
    pose proof (heldBy_lookup _ _ _ Hi).
    assert (0 <= held pc) by (destruct pc; cbn; lia). lia.
Qed.

Lemma synced_in_flight m i pc :
  Synced m -> pool m !! i = Some pc -> inFlight pc = true ->
  held pc <= jobsWg m /\ 0 < jobsWg m /\ jobsClosed m = false /\
  (mainPC m = MWait \/ exists seed, mainPC m = MSeed seed).
Proof.
  intros [Hwg Hmain] Hi Hfl. unfold outstanding in Hwg.
  pose proof (heldBy_lookup _ _ _ Hi) as Hle.
  pose proof (inFlight_held _ Hfl) as H1.
  assert (0 <= seedRegistered (mainPC m)) by (destruct (mainPC m); cbn; lia).
  assert (held pc <= jobsWg m) by lia.
  repeat split; try lia; destruct (mainPC m); try (right; eauto; fail);
    try (left; reflexivity); try tauto; lia.
Qed.

Lemma wgAdd_some m delta m' :
  wgAdd m delta = Some m' ->
  0 <= jobsWg m + delta /\
  m' = mkMachine (options m) (world m) (jobs m) (bufferSize m) (jobsClosed m)
                 (jobsWg m + delta) (pool m) (mainPC m) (statsDone m).
Proof.
  unfold wgAdd. destruct (jobsWg m + delta <? 0) eqn:Hneg; [discriminate|].
  intros [= <-]. split; [lia | reflexivity].
Qed.

Lemma wgAdd_none m delta : wgAdd m delta = None -> jobsWg m + delta < 0.
Proof.
  unfold wgAdd. destruct (jobsWg m + delta <? 0) eqn:Hneg; [lia | discriminate].
Qed.

(** Splits a step on the tests it makes. *)
Ltac step_cases H :=
  try discriminate H;
  repeat match type of H with
         | context [match ?x with _ => _ end] => destruct x eqn:?; try discriminate H
         end;
  repeat match goal with
         | E : wgAdd _ _ = Some _ |- _ => apply wgAdd_some in E as [? ->]
         end.

Lemma stepMain_synced m m' : Synced m -> stepMain m = Next m' -> Synced m'.
Proof.
  intros [Hwg Hmain] Hstep. unfold stepMain, send in Hstep.
  unfold Synced, outstanding in *.
  destruct (mainPC m) eqn:Hpc; step_cases Hstep; injection Hstep as <-;
    cbn in *; rewrite ?length_app; cbn; rewrite ?Hpc; repeat split; try tauto; try lia.
Qed.

Lemma stepReporter_synced m m' : Synced m -> statsReporter m = Next m' -> Synced m'.
Proof.
  intros [Hwg Hmain] Hstep. unfold statsReporter in Hstep.
  unfold Synced, outstanding in *.
  step_cases Hstep. injection Hstep as <-. cbn in *. tauto.
Qed.

Ltac fields :=
  unfold setWorker, setJobs, setWorld, setMain in *;
  cbn [options world jobs bufferSize jobsClosed jobsWg pool mainPC statsDone
       held seedRegistered length] in *.

Lemma worker_synced i m m' : Synced m -> worker i m = Next m' -> Synced m'.
Proof.
  intros [Hwg Hmain] Hstep. unfold worker, send in Hstep.
  destruct (pool m !! i) as [pc|] eqn:Hi; [|discriminate].
  pose proof (heldBy_lookup _ _ _ Hi) as Hle.
  pose proof (heldBy_nonneg (pool m)) as Hnn.
  unfold Synced, outstanding in *.
  destruct pc as [|job|[|newJob rest]|newJob rest|];
    step_cases Hstep; injection Hstep as <-; fields;
    rewrite ?length_app, (heldBy_insert _ _ _ _ Hi); fields;
    repeat match goal with
           | E : jobs m = _ |- _ => rewrite E in *; clear E
           | E : jobsClosed m = _ |- _ => rewrite E in *; clear E
           end; fields;
    (split; [lia|]);
    destruct (mainPC m); fields; repeat split;
    first [tauto | lia | exfalso; lia | exfalso; intuition congruence].
Qed.

Lemma step_synced a m m' : Synced m -> step a m = Next m' -> Synced m'.
Proof.
  destruct a; cbn.
  - apply stepMain_synced.
  - apply worker_synced.
  - apply stepReporter_synced.
Qed.

Lemma step_no_panic a m : Synced m -> step a m <> Panic.
Proof.
  intros [Hwg Hmain] Hstep. unfold outstanding in Hwg.
  pose proof (heldBy_nonneg (pool m)) as Hnn.
  destruct a as [|i|]; cbn in Hstep.
  - unfold stepMain, send in Hstep.
    destruct (mainPC m) eqn:Hpc; step_cases Hstep;
      repeat match goal with
             | E : wgAdd _ _ = None |- _ => apply wgAdd_none in E
             end; fields; try lia; intuition congruence.
  - unfold worker, send in Hstep.
    destruct (pool m !! i) as [pc|] eqn:Hi; [|discriminate].
    pose proof (heldBy_lookup _ _ _ Hi) as Hle.
    destruct pc as [|job|[|newJob rest]|newJob rest|];
      step_cases Hstep;
      repeat match goal with
             | E : wgAdd _ _ = None |- _ => apply wgAdd_none in E
             end; fields; try lia.
    all: destruct (mainPC m); fields; first [lia | intuition congruence].
  - unfold statsReporter in Hstep. step_cases Hstep.
Qed.

Lemma performMove_started fs0 source target opts m0 :
  performMove fs0 source target opts = Started m0 ->
  checkRoot Source (Lstat fs0 source) = None /\
  checkRoot Target (Lstat fs0 target) = None /\
  m0 = mkMachine opts
         (mkWorld fs0 zeroStatistics [SysLstat source; SysLstat target])
         [] (if Buffer opts =? 0 then 100000 else Buffer opts) false 0
         (replicate (Z.to_nat (Workers opts)) WRecv)
         (MRegister (mkJob source target)) false.
Proof.
  unfold performMove. intros H. step_cases H; injection H as <-; auto.
Qed.

Lemma performMove_synced fs0 source target opts m0 :
  performMove fs0 source target opts = Started m0 -> Synced m0.
Proof.
  intros H. apply performMove_started in H as (_ & _ & ->).
  unfold Synced, outstanding. cbn. rewrite heldBy_replicate. auto.
Qed.

(** A property kept by every step holds after every schedule. *)
Lemma exec_invariant (P : Machine -> Prop) :
  (forall a m m', P m -> step a m = Next m' -> P m') ->
  forall schedule m m', P m -> exec schedule m = Some m' -> P m'.
Proof.
  intros Hstep schedule. induction schedule as [|a rest IH]; intros m m' HP Hexec.
  - cbn in Hexec. injection Hexec as <-. exact HP.
  - cbn in Hexec. destruct (step a m) as [| |m1] eqn:Ha; try discriminate.
    eapply IH; [|exact Hexec]. eapply Hstep; eauto.
Qed.

(** The same for a property that depends on the number of steps taken. *)
Lemma exec_invariant_count (P : Z -> Machine -> Prop) :
  (forall n a m m', 0 <= n -> P n m -> step a m = Next m' -> P (n + 1) m') ->
  forall schedule n m m', 0 <= n -> P n m -> exec schedule m = Some m' ->
  P (n + Z.of_nat (length schedule)) m'.
Proof.
  intros Hstep schedule. induction schedule as [|a rest IH]; intros n m m' Hn HP Hexec.
  - cbn in Hexec. injection Hexec as <-. cbn. rewrite Z.add_0_r. exact HP.
  - cbn in Hexec. destruct (step a m) as [| |m1] eqn:Ha; try discriminate.
    cbn [length]. rewrite Nat2Z.inj_succ.
    replace (n + Z.succ (Z.of_nat (length rest))) with (n + 1 + Z.of_nat (length rest)) by lia.
    eapply IH; [lia| |exact Hexec]. eapply Hstep; eauto.
Qed.

Lemma run_synced fs0 source target opts m0 schedule m :
  performMove fs0 source target opts = Started m0 ->
  exec schedule m0 = Some m -> Synced m.
Proof.
  intros Hstart Hexec.
  eapply (exec_invariant Synced); [|eapply performMove_synced; eauto|exact Hexec].
  intros a m1 m2. apply step_synced.
Qed.

Lemma step_options a m m' : step a m = Next m' -> options m' = options m.
Proof.
  destruct a as [|i|]; cbn; intros Hstep.
  - unfold stepMain, send in Hstep. step_cases Hstep; injection Hstep as <-; reflexivity.
  - unfold worker, send in Hstep. step_cases Hstep; injection Hstep as <-; reflexivity.
  - unfold statsReporter in Hstep. step_cases Hstep; injection Hstep as <-; reflexivity.
Qed.

(** A step changes the counters, the file system or the rename calls only
    by running [processPath] on a dequeued job. *)
Lemma step_world a m m' :
  step a m = Next m' ->
  (stats (world m') = stats (world m) /\ fs (world m') = fs (world m) /\
   renameCalls (log (world m')) = renameCalls (log (world m))) \/
  exists s t, world m' = snd (processPath s t (options m) (world m)).
Proof.
  destruct a as [|i|]; cbn; intros Hstep.
  - left. unfold stepMain, send in Hstep.
    step_cases Hstep; injection Hstep as <-; cbn; rewrite ?renameCalls_snoc, ?app_nil_r; auto.
  - unfold worker, send in Hstep.
    destruct (pool m !! i) as [[|job|[|newJob rest]|newJob rest|]|] eqn:Hi;
      try (left; step_cases Hstep; injection Hstep as <-; cbn; auto; fail).
    right. exists (SourcePath job), (TargetPath job).
    destruct (processPath _ _ _ _) as [newJobs w]. injection Hstep as <-. reflexivity.
  - left. unfold statsReporter in Hstep.
    step_cases Hstep; injection Hstep as <-; cbn; rewrite ?renameCalls_snoc, ?app_nil_r; auto.
Qed.

Lemma Counted_weaken opts n s : Counted opts n s -> Counted opts (n + 1) s.
Proof. unfold Counted. intuition lia. Qed.

Lemma processPath_counted opts n w s t :
  0 <= n -> n + 1 < 2 ^ 63 ->
  Counted opts n (stats w) ->
  Counted opts (n + 1) (stats (snd (processPath s t opts w))).
Proof.
  intros Hn Hbound HC.
  destruct (String.eqb_spec s t) as [->|Hne].
  { rewrite processPath_same_path. apply Counted_weaken, HC. }
  unfold processPath, processDir, processFile, bind, lstat, readDir, rename,
    AddInt64, verbose, emit, ret.
  rewrite (eqb_false_of_neq _ _ Hne).
  destruct w as [f [dc ds dm fc fsk fm bm ss er] l].
  unfold Counted in *. cbn in HC. cbn.
  destruct HC as (He & Hm & Hs & Hlo & Hhi & Hfc & Hdry).
  destruct (Lstat f s) as [info|e]; cbn;
    [destruct (isSymlink info); cbn;
     [|destruct (IsDir info); cbn; destruct (isOk (Lstat f t)); cbn;
       [destruct (ReadDir f s); cbn| | |]]|];
    destruct (DryRun opts) eqn:Hd; cbn;
    repeat (cbn;
            match goal with
            | |- context [Rename ?f ?s ?t] => destruct (Rename f s t) as [? [?|]] eqn:?
            | |- context [Verbose ?o] => destruct (Verbose o)
            end);
    cbn; rewrite ?add64_succ by lia;
    (repeat split; try lia; intros Hd'; try discriminate Hd';
     specialize (Hdry eq_refl); lia).
Qed.

Lemma run_options fs0 source target opts m0 schedule m :
  performMove fs0 source target opts = Started m0 ->
  exec schedule m0 = Some m -> options m = opts.
Proof.
  intros Hstart Hexec.
  eapply (exec_invariant (fun m => options m = opts)); [| |exact Hexec].
  - intros a m1 m2 H1 Hs. rewrite (step_options _ _ _ Hs). exact H1.
  - apply performMove_started in Hstart as (_ & _ & ->). reflexivity.
Qed.

Lemma step_tallied n a m m' :
  0 <= n -> Tallied n m -> step a m = Next m' -> Tallied (n + 1) m'.
Proof.
  intros Hn HT Hstep Hbound. unfold Tallied in HT.
  rewrite (step_options _ _ _ Hstep).
  destruct (step_world _ _ _ Hstep) as [(-> & _ & _)|(s & t & ->)].
  - apply Counted_weaken, HT. lia.
  - apply processPath_counted; [lia|lia|apply HT; lia].
Qed.

Lemma run_counted fs0 source target opts m0 schedule m :
  performMove fs0 source target opts = Started m0 ->
  exec schedule m0 = Some m ->
  Z.of_nat (length schedule) < 2 ^ 63 ->
  Counted opts (Z.of_nat (length schedule)) (stats (world m)).
Proof.
  intros Hstart Hexec Hbound.
  pose proof (run_options _ _ _ _ _ _ _ Hstart Hexec) as Hopts.
  pose proof (exec_invariant_count Tallied step_tallied schedule 0 m0 m) as H.
  cbn [Z.add] in H. rewrite <- Hopts. apply H; [lia| |exact Hexec|exact Hbound].
  apply performMove_started in Hstart as (_ & _ & ->).
  intros _. unfold Counted. cbn. repeat split; try lia. 
Qed.

Lemma step_untouched fs0 a m m' :
  Untouched fs0 m -> step a m = Next m' -> Untouched fs0 m'.
Proof.
  intros HU Hstep Hdry. rewrite (step_options _ _ _ Hstep) in Hdry.
  destruct (HU Hdry) as [Hfs Hlog].
  destruct (step_world _ _ _ Hstep) as [(_ & -> & ->)|(s & t & ->)]; [auto|].
  destruct (dry_run_job (options m) (world m) s t Hdry) as (-> & -> & _).
  auto.
Qed.

Lemma run_untouched fs0 source target opts m0 schedule m :
  performMove fs0 source target opts = Started m0 ->
  exec schedule m0 = Some m -> Untouched fs0 m.
Proof.
  intros Hstart Hexec.
  eapply (exec_invariant (Untouched fs0)); [| |exact Hexec].
  - intros a m1 m2. apply step_untouched.
  - apply performMove_started in Hstart as (_ & _ & ->).
    intros _. cbn. auto.
Qed.

(** A worker that has the room to send registers each child and sends it,
    child after child, before anything else. *)
Lemma expansion_registers_children i newJobs : forall m,
  pool m !! i = Some (WLoop newJobs) ->
  jobsClosed m = false ->
  0 <= jobsWg m ->
  Z.of_nat (length (jobs m)) + Z.of_nat (length newJobs) <= bufferSize m ->
  exists m',
    exec (expandSchedule i (length newJobs)) m = Some m' /\
    jobsWg m' = jobsWg m + Z.of_nat (length newJobs) /\
    jobs m' = jobs m ++ newJobs /\
    pool m' !! i = Some (WLoop []) /\
    mainPC m' = mainPC m.
Proof.
  induction newJobs as [|newJob rest IH]; intros m Hi Hopen Hwg Hroom.
  - exists m. cbn. rewrite app_nil_r, Z.add_0_r. auto.
  - pose proof (lookup_lt_Some _ _ _ Hi) as Hlt.
    cbn [length expandSchedule exec] in *.
    unfold step at 1, worker. rewrite Hi. unfold wgAdd.
    destruct (jobsWg m + 1 <? 0) eqn:Hneg; [lia|].
    unfold step at 1, worker, send. fields.
    rewrite list_lookup_insert_eq by exact Hlt. rewrite Hopen.
    destruct (Z.of_nat (length (jobs m)) <? bufferSize m) eqn:Hfull; [|lia].
    match goal with
    | |- exists m', exec _ ?m1 = _ /\ _ => destruct (IH m1) as (m' & He & Hw & Hj & Hp & Hm)
    end; fields.
    + rewrite list_insert_insert_eq. apply list_lookup_insert_eq. exact Hlt.
    + first [exact Hopen | reflexivity].
    + lia.
    + rewrite length_app. cbn [length]. lia.
    + exists m'. rewrite He, Hw, Hj, Hp, Hm, <- app_assoc. cbn.
      repeat split; auto. lia.
Qed.

(** ** The claims about a run *)

(** C1: at every point of every run the WaitGroup counter equals the number
    of outstanding jobs (queued, held by a worker, or registered and not yet
    sent), so it is at least one while any worker holds a job.  A worker with
    children left registers the next one with one increment and cannot fail
    to; it decrements only when no child is left to register.  With room in
    the channel, a worker holding [K] children makes [K] increments and then
    its decrement (net [K - 1]).  No step panics, and a counter at zero means
    no job is queued or held. *)
Theorem children_registered_before_done fs0 source target opts m0 schedule m :
  performMove fs0 source target opts = Started m0 ->
  exec schedule m0 = Some m ->
  jobsWg m = outstanding m /\
  (forall i pc, pool m !! i = Some pc -> inFlight pc = true -> 0 < jobsWg m) /\
  (forall i newJob rest,
     pool m !! i = Some (WLoop (newJob :: rest)) ->
     exists m',
       step (AWorker i) m = Next m' /\
       jobsWg m' = jobsWg m + 1 /\
       pool m' !! i = Some (WSend newJob rest)) /\
  (forall i m',
     step (AWorker i) m = Next m' -> jobsWg m' < jobsWg m ->
     pool m !! i = Some (WLoop []) /\ jobsWg m' = jobsWg m - 1 /\ 0 <= jobsWg m') /\
  (forall i newJobs,
     pool m !! i = Some (WLoop newJobs) ->
     Z.of_nat (length (jobs m)) + Z.of_nat (length newJobs) <= bufferSize m ->
     exists m1 m2,
       exec (expandSchedule i (length newJobs)) m = Some m1 /\
       jobsWg m1 = jobsWg m + Z.of_nat (length newJobs) /\
       step (AWorker i) m1 = Next m2 /\
       jobsWg m2 = jobsWg m + Z.of_nat (length newJobs) - 1) /\
  (forall a, step a m <> Panic) /\
  (jobsWg m = 0 ->
     jobs m = [] /\ forall i pc, pool m !! i = Some pc -> inFlight pc = false).
Proof.
  intros Hstart Hexec.
  pose proof (run_synced _ _ _ _ _ _ _ Hstart Hexec) as HS.
  split; [apply HS|].
  split; [intros i pc Hi Hfl; apply (synced_in_flight m i pc HS Hi Hfl)|].
  split.
  { intros i newJob rest Hi.
    destruct (synced_in_flight m i _ HS Hi eq_refl) as (_ & Hpos & _).
    cbn. unfold worker. rewrite Hi. unfold wgAdd.
    destruct (jobsWg m + 1 <? 0) eqn:Hneg; [lia|].
    eexists. split; [reflexivity|]. fields. split; [reflexivity|].
    apply list_lookup_insert_eq. eapply lookup_lt_Some; eauto. }
  split.
  { intros i m' Hstep Hless. cbn in Hstep. unfold worker, send in Hstep.
    destruct (pool m !! i) as [[|job|[|newJob rest]|newJob rest|]|] eqn:Hi;
      step_cases Hstep; injection Hstep as <-; fields; try lia.
    repeat split; lia. }
  split.
  { intros i newJobs Hi Hroom.
    destruct (synced_in_flight m i _ HS Hi eq_refl) as (_ & Hpos & Hopen & _).
    destruct (expansion_registers_children i newJobs m Hi Hopen ltac:(lia) Hroom)
      as (m1 & He & Hw & Hj & Hp & Hm).
    exists m1. eexists. split; [exact He|]. split; [exact Hw|].
    cbn. unfold worker. rewrite Hp. unfold wgAdd.
    destruct (jobsWg m1 + -1 <? 0) eqn:Hneg; [lia|].
    split; [reflexivity|]. fields. lia. }
  split; [intros a; apply step_no_panic, HS|].
  apply synced_zero, HS.
Qed.

(** C5: with dry-run on, no run ever calls a rename and the file system
    stays the one the run started with; each job leaves the file system and
    the rename calls as they were, produces the child jobs of the real run,
    leaves the counters the real run leaves unless the rename of the real
    run fails, and a planned move is counted as made: one more directory
    moved, or one more file moved with its size added to the bytes moved. *)
Theorem dry_run_moves_nothing opts :
  DryRun opts = true ->
  (forall fs0 source target m0 schedule m,
     performMove fs0 source target opts = Started m0 ->
     exec schedule m0 = Some m ->
     fs (world m) = fs0 /\ renameCalls (log (world m)) = []) /\
  (forall w s t,
     let dry := processPath s t opts w in
     let real := processPath s t (withDryRun false opts) w in
     fs (snd dry) = fs w /\
     renameCalls (log (snd dry)) = renameCalls (log w) /\
     fst dry = fst real /\
     ((forall e, renameCalls (log (snd real)) <>
                 renameCalls (log w) ++ [SysRename s t (Some e)]) ->
      stats (snd dry) = stats (snd real)) /\
     (forall info,
        s <> t -> Lstat (fs w) s = Ok info -> isSymlink info = false ->
        isOk (Lstat (fs w) t) = false ->
        if IsDir info
        then DirsMoved (stats (snd dry)) = add64 (DirsMoved (stats w)) 1 /\
             BytesMoved (stats (snd dry)) = BytesMoved (stats w)
        else FilesMoved (stats (snd dry)) = add64 (FilesMoved (stats w)) 1 /\
             BytesMoved (stats (snd dry)) = add64 (BytesMoved (stats w)) (Size info))).
Proof.
  intros Hdry. split.
  - intros fs0 source target m0 schedule m Hstart Hexec.
    apply (run_untouched _ _ _ _ _ _ _ Hstart Hexec).
    rewrite (run_options _ _ _ _ _ _ _ Hstart Hexec). exact Hdry.
  - intros w s t dry real.
    destruct (dry_run_job opts w s t Hdry) as (H1 & H2 & H3 & H4).
    repeat split; auto.
    intros info Hne Hs Hlink Ht.
    apply (move_counted opts w s t info Hne Hs Hlink Ht).
    unfold moveOutcome. rewrite Hdry. reflexivity.
Qed.

(** C6: in a run of fewer than 2^63 steps, once every job has resolved (the
    counter is zero at [jobsWg.Wait()]) [performMove] goes on to return, and
    what it returns is an error exactly when the error counter is not zero;
    at the return no job is queued or held.  With no error counted the run
    succeeds, whatever was skipped. *)
Theorem run_fails_iff_errors fs0 source target opts m0 schedule m :
  performMove fs0 source target opts = Started m0 ->
  exec schedule m0 = Some m ->
  Z.of_nat (length schedule) < 2 ^ 63 ->
  (mainPC m = MWait -> jobsWg m = 0 ->
     exists m' r,
       exec [AMain; AMain; AMain] m = Some m' /\
       mainPC m' = MReturned r /\
       stats (world m') = stats (world m) /\
       (r <> None <-> Errors (stats (world m)) <> 0)) /\
  (forall r, mainPC m = MReturned r ->
     (jobs m = [] /\ forall i pc, pool m !! i = Some pc -> inFlight pc = false) /\
     (r <> None <-> Errors (stats (world m)) <> 0) /\
     (Errors (stats (world m)) = 0 -> r = None)).
Proof.
  intros Hstart Hexec Hbound.
  pose proof (run_synced _ _ _ _ _ _ _ Hstart Hexec) as HS.
  pose proof (run_counted _ _ _ _ _ _ _ Hstart Hexec Hbound) as ((He & _) & _).
  assert (Hfinal : finalError (stats (world m)) <> None <-> Errors (stats (world m)) <> 0).
  { unfold finalError. destruct (Errors (stats (world m)) >? 0) eqn:Hgt;
      split; intros H; try congruence; lia. }
  split.
  - intros Hpc Hz. destruct HS as [_ Hmain]. rewrite Hpc in Hmain.
    cbn. unfold stepMain. rewrite Hpc, Hz. cbn. rewrite Hmain. cbn.
    eexists. eexists. split; [reflexivity|]. cbn.
    destruct (Stats (options m)); cbn; auto.
  - intros r Hpc. pose proof HS as [_ Hmain]. rewrite Hpc in Hmain.
    destruct Hmain as (Hz & _ & ->).
    split; [apply synced_zero; assumption|]. split; [exact Hfinal|].
    intros H0. unfold finalError. rewrite H0. reflexivity.
Qed.

(** C8 (amended): in a run of fewer than 2^63 steps the files checked are at
    least the files moved plus the files skipped, and exceed them by no more
    than the errors counted: a checked file is counted moved, or skipped, or
    its rename failed and was counted an error.  The two sides are equal in
    a run that counts no error, and in a dry run.  (The states of a run lie
    between two job bodies; its end is one of them.) *)
Theorem files_checked_accounting fs0 source target opts m0 schedule m :
  performMove fs0 source target opts = Started m0 ->
  exec schedule m0 = Some m ->
  Z.of_nat (length schedule) < 2 ^ 63 ->
  let s := stats (world m) in
  FilesMoved s + FilesSkipped s <= FilesChecked s <= FilesMoved s + FilesSkipped s + Errors s /\
  (Errors s = 0 -> FilesMoved s + FilesSkipped s = FilesChecked s) /\
  (DryRun opts = true -> FilesMoved s + FilesSkipped s = FilesChecked s).
Proof.
  intros Hstart Hexec Hbound s.
  pose proof (run_counted _ _ _ _ _ _ _ Hstart Hexec Hbound) as HC.
  unfold Counted in HC. fold s in HC.
  destruct HC as (He & Hm & Hs & Hlo & Hhi & Hfc & Hdry).
  repeat split; try lia. intros Hd. specialize (Hdry Hd). lia.
Qed.

End RunProperties.

(** ** The engine on the example trees *)

Section OnExamples.

Import MemFS Examples.

Ltac evaluate := vm_compute; reflexivity.

Lemma merge_runs :
  performMove mixed "/src" "/dst" defaults = Started mergeStart /\
  exec mergeSchedule mergeStart = Some mergeEnd /\
  exec midSchedule mergeStart = Some midExpansion.
Proof. split; [|split]; vm_compute; reflexivity. Qed.

Lemma dry_runs :
  performMove mixed "/src" "/dst" dryRun = Started dryStart /\
  exec drySchedule dryStart = Some dryEnd.
Proof. split; vm_compute; reflexivity. Qed.

Lemma denied_runs :
  performMove readOnlyTarget "/src" "/dst" defaults = Started deniedStart /\
  exec deniedSchedule deniedStart = Some deniedEnd.
Proof. split; vm_compute; reflexivity. Qed.

Lemma self_runs :
  performMove mixed "/src/" "/src" defaults = Started selfStart /\
  exec selfSchedule selfStart = Some selfEnd.
Proof. split; vm_compute; reflexivity. Qed.

(** Three tests of the repository, on the model. *)
Example test_skip_symlinks :
  exists t,
    runTest withLinks defaults = Some (None, t) /\
    notExists t "/src/original.txt" = true /\
    fileContent t "/dst/original.txt" = Some "content" /\
    symlinkExists t "/src/link.txt" = true /\
    symlinkExists t "/src/dirlink" = true /\
    notExists t "/dst/link.txt" = true /\
    notExists t "/dst/dirlink" = true.
Proof.
  eexists. split; [vm_compute; reflexivity|].
  do 5 (split; [vm_compute; reflexivity|]). vm_compute; reflexivity.
Qed.

Example test_skip_existing_files_and_move_only_new_ones :
  exists t,
    runTest overlapping defaults = Some (None, t) /\
    fileContent t "/dst/dir1/existing.txt" = Some "old_content" /\
    notExists t "/src/dir1/new.txt" = true /\
    fileContent t "/dst/dir1/new.txt" = Some "new_file" /\
    fileContent t "/src/dir1/existing.txt" = Some "new_content".
Proof.
  eexists. split; [vm_compute; reflexivity|].
  do 3 (split; [vm_compute; reflexivity|]). vm_compute; reflexivity.
Qed.

Example test_dry_run_does_not_move_files :
  exists t,
    runTest twoLevels (mkOptions 1 10000 false false true) = Some (None, t) /\
    fileContent t "/src/file.txt" = Some "content" /\
    fileContent t "/src/dir1/file2.txt" = Some "content2" /\
    notExists t "/dst/file.txt" = true /\
    notExists t "/dst/dir1" = true.
Proof.
  eexists. split; [vm_compute; reflexivity|].
  do 3 (split; [vm_compute; reflexivity|]). vm_compute; reflexivity.
Qed.

(** The merge of [mixed] ends well: one file skipped, one file, one
    directory moved, one link skipped, no error. *)
Example merge_outcome :
  mainPC mergeEnd = MReturned None /\
  stats (world mergeEnd) = mkStatistics 2 1 1 2 1 1 7 1 0.
Proof. split; vm_compute; reflexivity. Qed.

(** A link inside a directory that is absent from the target goes over with
    the directory: no job ever has it as its source. *)
Example link_inside_moved_directory :
  Lstat mixed "/src/new/inner.lnk" = Ok (info (Link "/src/a.txt")) /\
  Lstat (fs (world mergeEnd)) "/dst/new/inner.lnk" = Ok (info (Link "/src/a.txt")) /\
  Lstat (fs (world mergeEnd)) "/src/new/inner.lnk" = Err ENOENT.
Proof. split; [|split]; vm_compute; reflexivity. Qed.

(** *** C1 on the merge of [mixed], stopped in mid-expansion *)

Lemma children_registered_before_done_witness :
  pool midExpansion !! 0%nat =
    Some (WSend (mkJob "/src/a.txt" "/dst/a.txt")
                [mkJob "/src/b.txt" "/dst/b.txt";
                 mkJob "/src/link.txt" "/dst/link.txt";
                 mkJob "/src/new" "/dst/new"]) /\
  jobsWg midExpansion = outstanding midExpansion /\
  0 < jobsWg midExpansion.
Proof.
  destruct merge_runs as (Hstart & _ & Hmid).
  destruct (children_registered_before_done _ _ _ _ _ _ _ Hstart Hmid)
    as (Hwg & Hheld & _).
  split; [vm_compute; reflexivity|]. split; [exact Hwg|].
  apply (Hheld 0%nat (WSend (mkJob "/src/a.txt" "/dst/a.txt")
                          [mkJob "/src/b.txt" "/dst/b.txt";
                           mkJob "/src/link.txt" "/dst/link.txt";
                           mkJob "/src/new" "/dst/new"]));
    vm_compute; reflexivity.
Defined.

(** *** C2: directory jobs *)

Lemma directory_job_witness :
  fst (processPath "/src" "/dst" defaults (fresh mixed)) =
    [mkJob "/src/a.txt" "/dst/a.txt"; mkJob "/src/b.txt" "/dst/b.txt";
     mkJob "/src/link.txt" "/dst/link.txt"; mkJob "/src/new" "/dst/new"] /\
  renameCalls (log (snd (processPath "/src/new" "/dst/new" defaults (fresh mixed)))) =
    [SysRename "/src/new" "/dst/new" None].
Proof.
  split.
  - assert (Hne : "/src" <> "/dst") by discriminate.
    destruct (directory_job (os := memOS) defaults (fresh mixed) "/src" "/dst" (info (Dir Open))
                Hne ltac:(evaluate) ltac:(evaluate) ltac:(evaluate)) as [_ Hpresent].
    destruct (Hpresent ltac:(evaluate)) as (_ & _ & Hchildren). exact Hchildren.
  - assert (Hne : "/src/new" <> "/dst/new") by discriminate.
    destruct (directory_job (os := memOS) defaults (fresh mixed) "/src/new" "/dst/new" (info (Dir Open))
                Hne ltac:(evaluate) ltac:(evaluate) ltac:(evaluate)) as [Habsent _].
    destruct (Habsent ltac:(evaluate)) as (_ & Hcalls). exact Hcalls.
Defined.

(** C2 as first stated fails three ways.  /src given as both paths: it is a
    directory, its target exists, it has four entries, and the job produces
    no child.  /src/new in a dry run: its target is absent and no rename is
    called.  /src/vault: its target exists, it has an entry, the listing is
    refused and the job produces no child. *)
Lemma directory_job_counterexample :
  (Lstat mixed "/src" = Ok (info (Dir Open)) /\
   ReadDir mixed "/src" = Ok ["a.txt"; "b.txt"; "link.txt"; "new"] /\
   fst (processPath "/src" "/src" defaults (fresh mixed)) = []) /\
  (Lstat mixed "/src/new" = Ok (info (Dir Open)) /\
   Lstat mixed "/dst/new" = Err ENOENT /\
   renameCalls (log (snd (processPath "/src/new" "/dst/new" dryRun (fresh mixed)))) = []) /\
  (Lstat sealed "/src/vault" = Ok (info (Dir Sealed)) /\
   Lstat sealed "/dst/vault" = Ok (info (Dir Sealed)) /\
   find ["src"; "vault"; "f"] sealed = Some (File "data") /\
   ReadDir sealed "/src/vault" = Err EACCES /\
   fst (processPath "/src/vault" "/dst/vault" defaults (fresh sealed)) = []).
Proof.
  split; [|split]; repeat (split; [vm_compute; reflexivity|]); vm_compute; reflexivity.
Qed.

(** *** C3: file jobs *)

Lemma file_job_witness :
  FilesSkipped (stats (snd (processPath "/src/a.txt" "/dst/a.txt" defaults (fresh mixed)))) = 1 /\
  renameCalls (log (snd (processPath "/src/b.txt" "/dst/b.txt" defaults (fresh mixed)))) =
    [SysRename "/src/b.txt" "/dst/b.txt" None].
Proof.
  split.
  - assert (Hne : "/src/a.txt" <> "/dst/a.txt") by discriminate.
    destruct (file_job (os := memOS) defaults (fresh mixed) "/src/a.txt" "/dst/a.txt" (info (File "fresh"))
                Hne ltac:(evaluate) ltac:(evaluate) ltac:(evaluate)) as (_ & _ & Hpresent & _).
    destruct (Hpresent ltac:(evaluate)) as (_ & _ & Hskipped). exact Hskipped.
  - assert (Hne : "/src/b.txt" <> "/dst/b.txt") by discriminate.
    destruct (file_job (os := memOS) defaults (fresh mixed) "/src/b.txt" "/dst/b.txt" (info (File "content"))
                Hne ltac:(evaluate) ltac:(evaluate) ltac:(evaluate)) as (_ & _ & _ & Habsent).
    destruct (Habsent ltac:(evaluate)) as (Hcalls & _). exact Hcalls.
Defined.

(** C3 as first stated fails two ways.  /src/b.txt in a dry run: its target
    is absent and no rename is called.  /src/a.txt given as both paths: the
    target exists and nothing is counted; the merge of /src/ into /src makes
    such jobs, and ends with no file checked or skipped. *)
Lemma file_job_counterexample :
  (Lstat mixed "/src/b.txt" = Ok (info (File "content")) /\
   Lstat mixed "/dst/b.txt" = Err ENOENT /\
   renameCalls (log (snd (processPath "/src/b.txt" "/dst/b.txt" dryRun (fresh mixed)))) = []) /\
  (Lstat mixed "/src/a.txt" = Ok (info (File "fresh")) /\
   stats (snd (processPath "/src/a.txt" "/src/a.txt" defaults (fresh mixed))) = zeroStatistics /\
   fst (processPath "/src/" "/src" defaults (fresh mixed)) =
     [mkJob "/src/a.txt" "/src/a.txt"; mkJob "/src/b.txt" "/src/b.txt";
      mkJob "/src/link.txt" "/src/link.txt"; mkJob "/src/new" "/src/new"] /\
   mainPC selfEnd = MReturned None /\
   FilesChecked (stats (world selfEnd)) = 0 /\
   FilesSkipped (stats (world selfEnd)) = 0).
Proof.
  split; repeat (split; [vm_compute; reflexivity|]); vm_compute; reflexivity.
Qed.

(** *** C5: the dry run of the merge of [mixed] *)

Lemma dry_run_moves_nothing_witness :
  fs (world dryEnd) = mixed /\
  renameCalls (log (world dryEnd)) = [] /\
  mainPC dryEnd = MReturned None /\
  stats (world dryEnd) = stats (world mergeEnd).
Proof.
  destruct dry_runs as (Hstart & Hend).
  destruct (dry_run_moves_nothing (os := memOS) dryRun eq_refl) as [Hrun _].
  destruct (Hrun _ _ _ _ _ _ Hstart Hend) as (Hfs & Hcalls).
  split; [exact Hfs|]. split; [exact Hcalls|].
  split; vm_compute; reflexivity.
Defined.

(** *** C6: the merge of [mixed] skips a file and succeeds; the merge into
    a read-only target counts an error and fails *)

Lemma run_fails_iff_errors_witness :
  (FilesSkipped (stats (world mergeEnd)) = 1 /\
   mainPC mergeEnd = MReturned None /\
   Errors (stats (world mergeEnd)) = 0) /\
  (mainPC deniedEnd = MReturned (Some (CompletedWithErrors 1)) /\
   Errors (stats (world deniedEnd)) <> 0).
Proof.
  split.
  - destruct merge_runs as (Hstart & Hend & _).
    assert (Hbound : Z.of_nat (length mergeSchedule) < 2 ^ 63) by (vm_compute; reflexivity).
    destruct (run_fails_iff_errors _ _ _ _ _ _ _ Hstart Hend Hbound) as [_ Hret].
    assert (Hpc : mainPC mergeEnd = MReturned None) by (vm_compute; reflexivity).
    destruct (Hret None Hpc) as (_ & Hiff & _).
    split; [vm_compute; reflexivity|]. split; [exact Hpc|].
    destruct (Z.eq_dec (Errors (stats (world mergeEnd))) 0) as [Hz|Hnz]; [exact Hz|].
    destruct Hiff as [_ Hback]. destruct (Hback Hnz eq_refl).
  - destruct denied_runs as (Hstart & Hend).
    assert (Hbound : Z.of_nat (length deniedSchedule) < 2 ^ 63) by (vm_compute; reflexivity).
    destruct (run_fails_iff_errors _ _ _ _ _ _ _ Hstart Hend Hbound) as [_ Hret].
    assert (Hpc : mainPC deniedEnd = MReturned (Some (CompletedWithErrors 1)))
      by (vm_compute; reflexivity).
    destruct (Hret _ Hpc) as (_ & Hiff & _).
    split; [exact Hpc|]. apply Hiff. discriminate.
Defined.

(** *** C7: the roots *)

(** C7: [performMove] rejects a source that is a link to a directory with
    the error it gives for a plain file, "source must be a directory"; the
    same for the target.  "cannot be a symlink" needs a result of [os.Lstat]
    that is a directory and a link at once.  A missing path is told apart,
    and no machine is started in any of these cases. *)
Theorem symlink_root_reported_as_not_a_directory :
  Lstat roots "/srclink" = Ok (info (Link "/real")) /\
  isSymlink (info (Link "/real")) = true /\
  performMove roots "/srclink" "/dst" defaults = Rejected (MustBeDirectory Source) /\
  performMove roots "/file.txt" "/dst" defaults = Rejected (MustBeDirectory Source) /\
  performMove roots "/real" "/srclink" defaults = Rejected (MustBeDirectory Target) /\
  performMove roots "/real" "/file.txt" defaults = Rejected (MustBeDirectory Target) /\
  performMove roots "/missing" "/dst" defaults = Rejected (PathError Source ENOENT) /\
  (forall who r,
     checkRoot who r = Some (CannotBeSymlink who) ->
     exists i, r = Ok i /\ IsDir i = true /\ isSymlink i = true) /\
  (forall n, IsDir (info n) && isSymlink (info n) = false).
Proof.
  do 7 (split; [vm_compute; reflexivity|]).
  split.
  - intros who r. unfold checkRoot. destruct r as [i|e]; [|discriminate].
    destruct (IsDir i) eqn:Hd; cbn; [|discriminate].
    destruct (isSymlink i) eqn:Hl; [|discriminate].
    intros _. exists i. auto.
  - intros [content|dest|p]; [reflexivity|reflexivity|destruct p; reflexivity].
Qed.

(** *** C8: the merge into a read-only target *)

Lemma files_checked_accounting_witness :
  let s := stats (world deniedEnd) in
  FilesMoved s + FilesSkipped s <= FilesChecked s <= FilesMoved s + FilesSkipped s + Errors s.
Proof.
  destruct denied_runs as (Hstart & Hend).
  assert (Hbound : Z.of_nat (length deniedSchedule) < 2 ^ 63) by (vm_compute; reflexivity).
  destruct (files_checked_accounting _ _ _ _ _ _ _ Hstart Hend Hbound) as [H _].
  exact H.
Defined.

(** C8 as first stated fails when a rename fails: /dst is read-only, the
    rename of /src/f into it is refused, and the run ends with one file
    checked, none moved and none skipped. *)
Lemma files_checked_counterexample :
  mainPC deniedEnd = MReturned (Some (CompletedWithErrors 1)) /\
  renameCalls (log (world deniedEnd)) = [SysRename "/src/f" "/dst/f" (Some EACCES)] /\
  FilesChecked (stats (world deniedEnd)) = 1 /\
  FilesMoved (stats (world deniedEnd)) = 0 /\
  FilesSkipped (stats (world deniedEnd)) = 0 /\
  FilesMoved (stats (world deniedEnd)) + FilesSkipped (stats (world deniedEnd))
    <> FilesChecked (stats (world deniedEnd)).
Proof.
  repeat (split; [vm_compute; reflexivity|]). vm_compute. discriminate.
Qed.

(** *** C9: a target that cannot be examined *)

Lemma target_exists_iff_lstat_succeeds_witness :
  Lstat sealed "/dst/vault/g" = Err EACCES /\
  find ["dst"; "vault"; "g"] sealed = Some (File "x") /\
  renameCalls (log (snd (processPath "/src/g" "/dst/vault/g" defaults (fresh sealed)))) =
    [SysRename "/src/g" "/dst/vault/g" (Some EACCES)] /\
  FilesSkipped (stats (snd (processPath "/src/g" "/dst/vault/g" defaults (fresh sealed)))) = 0.
Proof.
  destruct (target_exists_iff_lstat_succeeds (os := memOS) defaults (fresh sealed) "/src/g" "/dst/vault/g"
              (info (File "123456789")) ltac:(evaluate) ltac:(evaluate)) as [Habsent _].
  destruct (Habsent EACCES ltac:(evaluate)) as (_ & _ & Hskipped & Hcalls & _).
  split; [vm_compute; reflexivity|]. split; [vm_compute; reflexivity|].
  split; [exact Hcalls | exact Hskipped].
Defined.

End OnExamples.

(** * More properties of the engine *)

Lemma failures_snoc l e :
  failures (l ++ [e]) = failures l + (if isFailedRename e then 1 else 0).
Proof.
  unfold failures. rewrite List.filter_app, length_app. cbn.
  destruct (isFailedRename e); cbn; lia.
Qed.

Lemma successes_snoc l e :
  successes (l ++ [e]) = successes l + (if isDoneRename e then 1 else 0).
Proof.
  unfold successes. rewrite List.filter_app, length_app. cbn.
  destruct (isDoneRename e); cbn; lia.
Qed.

Lemma failures_nonneg l : 0 <= failures l.
Proof. unfold failures. lia. Qed.

Lemma checkRoot_passes who r :
  checkRoot who r = None ->
  exists info, r = Ok info /\ IsDir info = true /\ isSymlink info = false.
Proof.
  unfold checkRoot. destruct r as [info|e]; [|discriminate].
  intros H. exists info.
  destruct (IsDir info) eqn:Hdir; cbn [negb] in H; [|discriminate].
  destruct (isSymlink info) eqn:Hlink; [discriminate|]. auto.
Qed.

Section MoreJobProperties.

Context {FS : Type} {os : OS FS}.
Implicit Types (w : @World FS) (opts : Options) (s t : string).

Ltac unfold_body :=
  unfold processPath, processDir, processFile, bind, lstat, readDir, rename,
    AddInt64, verbose, emit, ret.

(** Splits the body of a job on every test it makes. *)
Ltac job_cases f s t opts :=
  destruct (Lstat f s) as [?info|?e] eqn:?Hsrc; cbn;
  [ destruct (isSymlink info) eqn:?Hlink; cbn;
    [ | destruct (IsDir info) eqn:?Hdir; cbn;
        destruct (Lstat f t) as [?ti|?te] eqn:?Htgt; cbn;
        [ destruct (ReadDir f s) as [?names|?re] eqn:?Hread; cbn | | | ] ]
  | ];
  destruct (DryRun opts) eqn:?Hdry; cbn;
  repeat (cbn;
          match goal with
          | H : Rename ?f ?s ?t = _ |- context [Rename ?f ?s ?t] => rewrite H
          | |- context [Rename ?f ?s ?t] =>
              destruct (Rename f s t) as [?f' [?e|]] eqn:?Hren
          | |- context [Verbose ?o] => destruct (Verbose o) eqn:?Hverb
          end);
  cbn.

(** X1: a job whose source cannot be examined counts one error and does
    nothing else: no child job, no call on the target, no rename, the file
    system as it was. *)
Theorem source_stat_failure opts w s t e :
  s <> t ->
  Lstat (fs w) s = Err e ->
  processPath s t opts w =
    ([], mkWorld (fs w) (addCounter CErrors 1 (stats w))
                 (log w ++ SysLstat s ::
                    (if Verbose opts then [Stderr (CannotStat s e)] else []))).
Proof.
  intros Hne Hs. unfold_body. rewrite (eqb_false_of_neq _ _ Hne). cbn.
  rewrite Hs. destruct (Verbose opts); cbn; rewrite <- ?app_assoc; reflexivity.
Qed.

#[local] Arguments failures : simpl never.
#[local] Arguments successes : simpl never.
#[local] Arguments renameCalls : simpl never.

Lemma Ledger_weaken opts n w : Ledger opts n w -> Ledger opts (n + 1) w.
Proof. unfold Ledger. cbn zeta. intuition lia. Qed.

Lemma Grown_refl (st : Statistics) : Grown st st.
Proof. intros c _. lia. Qed.

Lemma Grown_trans (a b c : Statistics) : Grown a b -> Grown b c -> Grown a c.
Proof. intros H1 H2 k Hk. specialize (H1 k Hk). specialize (H2 k Hk). lia. Qed.

(** One job keeps the books, and takes no counter down. *)
Lemma processPath_ledger opts n w s t :
  0 <= n -> n + 1 < 2 ^ 63 ->
  Ledger opts n w ->
  Ledger opts (n + 1) (snd (processPath s t opts w)) /\
  Grown (stats w) (stats (snd (processPath s t opts w))).
Proof.
  intros Hn Hbound HL.
  destruct (String.eqb_spec s t) as [->|Hne].
  { rewrite processPath_same_path. split; [apply Ledger_weaken, HL|apply Grown_refl]. }
  unfold_body. rewrite (eqb_false_of_neq _ _ Hne).
  destruct w as [f [dc ds dm fc fsk fm bm ss er] l].
  unfold Ledger, Grown in *. cbn in HL. cbn.
  destruct HL as (Hb & Hjobs & Hd & Hf & Hfail & Herr & Hmoved).
  revert Hmoved.
  job_cases f s t opts; intros Hmoved;
    rewrite ?failures_snoc, ?successes_snoc, ?renameCalls_snoc; cbn;
    rewrite ?add64_succ by lia;
    (split; [repeat split; try lia; try (rewrite ?app_nil_r; assumption)
            | intros c Hc; destruct c; cbn; try lia; congruence]).
Qed.

#[local] Arguments syscalls : simpl never.

Lemma syscalls_snoc l e :
  syscalls (l ++ [e]) = syscalls l ++ (if isSyscall e then [e] else []).
Proof.
  unfold syscalls. rewrite List.filter_app. cbn.
  destruct (isSyscall e); reflexivity.
Qed.

(** Without [--verbose] a job does what it does with it, less the lines it
    prints. *)
Lemma processPath_hush opts w s t :
  processPath s t (quiet opts) (hushWorld w) =
  (fst (processPath s t opts w), hushWorld (snd (processPath s t opts w))).
Proof.
  destruct (String.eqb_spec s t) as [->|Hne].
  { rewrite !processPath_same_path. reflexivity. }
  unfold_body. rewrite (eqb_false_of_neq _ _ Hne).
  destruct w as [f st l]. unfold hushWorld. cbn.
  job_cases f s t opts;
    rewrite ?syscalls_snoc; cbn; rewrite ?app_nil_r, <- ?app_assoc; reflexivity.
Qed.

Lemma descend_snoc root names name :
  descend root (names ++ [name]) = Join (descend root names) name.
Proof. unfold descend. rewrite List.fold_left_app. reflexivity. Qed.

(** A job for a place under the source and the same place under the target
    calls [os.ReadDir] on its source only and [os.Rename] from its source to
    its target only, and its child jobs are such jobs again. *)
Lemma processPath_mirrors Canonical Entry Sound source target opts w s t :
  PathLaws Canonical Entry Sound ->
  Sound (fs w) ->
  Mirrors Entry source target (mkJob s t) ->
  Forall (mirroredCall Entry source target) (log w) ->
  Sound (fs (snd (processPath s t opts w))) /\
  Forall (mirroredCall Entry source target) (log (snd (processPath s t opts w))) /\
  Forall (Mirrors Entry source target) (fst (processPath s t opts w)).
Proof.
  intros Hlaws Hsound (names & Hnames & Hs & Ht) Hlog. cbn in Hs, Ht.
  destruct (String.eqb_spec s t) as [Heq|Hne].
  { rewrite <- Heq, processPath_same_path. cbn. auto. }
  unfold_body. rewrite (eqb_false_of_neq _ _ Hne).
  destruct w as [f st l]. cbn in Hlog, Hsound. cbn.
  assert (Hcall : forall e, mirroredCall Entry source target (SysRename s t e))
    by (intros e; exists names; auto).
  assert (Hlist : mirroredCall Entry source target (SysReadDir s))
    by (exists names; auto).
  assert (Hmoved : forall f' e, Rename f s t = (f', e) -> Sound f').
  { intros f' e Hren. pose proof (rename_sound _ _ _ Hlaws f s t Hsound) as H.
    rewrite Hren in H. exact H. }
  job_cases f s t opts;
    (split; [eauto|]);
    (split;
     [ repeat (apply Forall_app; split); try assumption;
       repeat constructor; auto
     | try (constructor; fail) ]).
  all: pose proof (readDir_entries _ _ _ Hlaws f s _ Hsound Hread) as Hentries;
    apply List.Forall_map; eapply List.Forall_impl; [|exact Hentries];
    intros name Hname; exists (names ++ [name]); cbn;
    rewrite !descend_snoc, <- Hs, <- Ht;
    split; [apply Forall_app; split; [exact Hnames|repeat constructor; exact Hname]|auto].
Qed.

(** A directory whose target exists is listed: a child job for each name,
    and the file system as it was. *)
Lemma processPath_lists opts w s t info ti names :
  s <> t ->
  Lstat (fs w) s = Ok info -> isSymlink info = false -> IsDir info = true ->
  Lstat (fs w) t = Ok ti ->
  ReadDir (fs w) s = Ok names ->
  fst (processPath s t opts w) =
    List.map (fun name => mkJob (Join s name) (Join t name)) names /\
  fs (snd (processPath s t opts w)) = fs w.
Proof.
  intros Hne Hs Hlink Hdir Ht Hread.
  unfold_body. rewrite (eqb_false_of_neq _ _ Hne).
  destruct w as [f st l]. cbn in *. rewrite Hs. cbn. rewrite Hlink, Hdir. cbn [fs]. rewrite Ht.
  destruct (Verbose opts); cbn; rewrite Hread; cbn; auto.
Qed.

End MoreJobProperties.

(** ** The books of a run *)

Lemma failures_renameCalls l : failures (renameCalls l) = failures l.
Proof.
  unfold failures, renameCalls. f_equal. f_equal.
  induction l as [|e l IH]; cbn; [reflexivity|].
  destruct e as [p|p|a b [err|]|msg|msg]; cbn; rewrite ?IH; reflexivity.
Qed.

Lemma successes_renameCalls l : successes (renameCalls l) = successes l.
Proof.
  unfold successes, renameCalls. f_equal. f_equal.
  induction l as [|e l IH]; cbn; [reflexivity|].
  destruct e as [p|p|a b [err|]|msg|msg]; cbn; rewrite ?IH; reflexivity.
Qed.

Lemma failures_zero l :
  failures l = 0 -> forall a b e, ~ In (SysRename a b (Some e)) l.
Proof.
  unfold failures. intros Hz a b e Hin.
  assert (Hf : In (SysRename a b (Some e)) (List.filter isFailedRename l))
    by (apply List.filter_In; split; [exact Hin|reflexivity]).
  destruct (List.filter isFailedRename l); [destruct Hf|cbn in Hz; lia].
Qed.

Section MoreRunProperties.

Context {FS : Type} {os : OS FS}.
Implicit Types (m : @Machine FS) (w : @World FS).

Lemma Ledger_same opts n w w' :
  stats w' = stats w ->
  renameCalls (log w') = renameCalls (log w) ->
  Ledger opts n w -> Ledger opts n w'.
Proof.
  unfold Ledger. cbn zeta. intros -> Hcalls.
  rewrite <- (failures_renameCalls (log w')), <- (successes_renameCalls (log w')), Hcalls.
  rewrite failures_renameCalls, successes_renameCalls. tauto.
Qed.

Lemma step_booked n a m m' :
  0 <= n -> Booked n m -> step a m = Next m' ->
  Booked (n + 1) m' /\
  (n + 1 < 2 ^ 63 -> Grown (stats (world m)) (stats (world m'))).
Proof.
  intros Hn HB Hstep. unfold Booked in *.
  rewrite (step_options _ _ _ Hstep).
  destruct (step_world _ _ _ Hstep) as [(Hst & _ & Hcalls)|(s & t & Hw)].
  - split.
    + intros Hbound. apply Ledger_weaken.
      apply (Ledger_same _ _ (world m)); auto. apply HB. lia.
    + intros _. rewrite Hst. apply Grown_refl.
  - rewrite Hw. split; intros Hbound;
      apply (processPath_ledger (options m) n (world m) s t Hn Hbound); apply HB; lia.
Qed.

Lemma start_booked fs0 source target opts m0 :
  performMove fs0 source target opts = Started m0 -> Booked 0 m0.
Proof.
  intros Hstart. apply performMove_started in Hstart as (_ & _ & ->).
  intros _. unfold Ledger, failures, successes, renameCalls. cbn.
  destruct (DryRun opts); cbn; repeat split; first [lia | reflexivity].
Qed.

Lemma run_booked fs0 source target opts m0 schedule m :
  performMove fs0 source target opts = Started m0 ->
  exec schedule m0 = Some m ->
  Z.of_nat (length schedule) < 2 ^ 63 ->
  Ledger opts (Z.of_nat (length schedule)) (world m).
Proof.
  intros Hstart Hexec Hbound.
  rewrite <- (run_options _ _ _ _ _ _ _ Hstart Hexec).
  pose proof (exec_invariant_count Booked
                (fun n a m1 m2 Hn HB Hs => proj1 (step_booked n a m1 m2 Hn HB Hs))
                schedule 0 m0 m) as H.
  cbn [Z.add] in H. apply H; [lia|eapply start_booked; eauto|exact Hexec|exact Hbound].
Qed.

(** X2: when [performMove] has returned, after a run of fewer than 2^63
    steps, the directories and files that were checked and neither moved nor
    skipped are exactly the renames that failed; the directories moved and
    skipped do not exceed the directories checked, and the same for the
    files. *)
Theorem checked_is_moved_skipped_or_failed fs0 source target opts m0 schedule m r :
  performMove fs0 source target opts = Started m0 ->
  exec schedule m0 = Some m ->
  Z.of_nat (length schedule) < 2 ^ 63 ->
  mainPC m = MReturned r ->
  let s := stats (world m) in
  DirsMoved s + DirsSkipped s <= DirsChecked s /\
  FilesMoved s + FilesSkipped s <= FilesChecked s /\
  (DirsChecked s - DirsMoved s - DirsSkipped s)
    + (FilesChecked s - FilesMoved s - FilesSkipped s) = failures (log (world m)).
Proof.
  intros Hstart Hexec Hbound _ s.
  pose proof (run_booked _ _ _ _ _ _ _ Hstart Hexec Hbound) as HL.
  unfold Ledger in HL. cbn zeta in HL. fold s in HL. tauto.
Qed.

(** X3: when [performMove] has returned, outside dry-run and after a run of
    fewer than 2^63 steps, the directories and files counted as moved are
    exactly the [os.Rename] calls that succeeded. *)
Theorem moved_counts_successful_renames fs0 source target opts m0 schedule m r :
  DryRun opts = false ->
  performMove fs0 source target opts = Started m0 ->
  exec schedule m0 = Some m ->
  Z.of_nat (length schedule) < 2 ^ 63 ->
  mainPC m = MReturned r ->
  DirsMoved (stats (world m)) + FilesMoved (stats (world m)) = successes (log (world m)).
Proof.
  intros Hdry Hstart Hexec Hbound _.
  pose proof (run_booked _ _ _ _ _ _ _ Hstart Hexec Hbound) as HL.
  unfold Ledger in HL. cbn zeta in HL. rewrite Hdry in HL. tauto.
Qed.

(** X4: when [performMove] has returned, after a run of fewer than 2^63
    steps, every rename that failed has been counted as an error; so a run
    that returns no error has had every [os.Rename] it called succeed. *)
Theorem success_means_every_rename_succeeded fs0 source target opts m0 schedule m r :
  performMove fs0 source target opts = Started m0 ->
  exec schedule m0 = Some m ->
  Z.of_nat (length schedule) < 2 ^ 63 ->
  mainPC m = MReturned r ->
  failures (log (world m)) <= Errors (stats (world m)) /\
  (r = None -> forall a b e, ~ In (SysRename a b (Some e)) (log (world m))).
Proof.
  intros Hstart Hexec Hbound Hpc.
  pose proof (run_booked _ _ _ _ _ _ _ Hstart Hexec Hbound) as HL.
  unfold Ledger in HL. cbn zeta in HL.
  destruct HL as (Hb & _ & _ & _ & _ & Herr & _).
  split; [exact Herr|]. intros ->.
  destruct (run_synced _ _ _ _ _ _ _ Hstart Hexec) as [_ Hmain].
  rewrite Hpc in Hmain. destruct Hmain as (_ & _ & Hfinal).
  unfold finalError in Hfinal.
  destruct (Errors (stats (world m)) >? 0) eqn:Hgt; [discriminate|].
  apply failures_zero. pose proof (failures_nonneg (log (world m))). lia.
Qed.

(** X5: no counter that goes up by one ever goes down: from any state of a
    run to any later state, within 2^63 steps, each counter other than the
    bytes moved has stayed or grown. *)
Theorem counters_never_decrease fs0 source target opts m0 before after m1 m2 :
  performMove fs0 source target opts = Started m0 ->
  exec before m0 = Some m1 ->
  exec after m1 = Some m2 ->
  Z.of_nat (length before) + Z.of_nat (length after) < 2 ^ 63 ->
  forall c, c <> CBytesMoved ->
    counter c (stats (world m1)) <= counter c (stats (world m2)).
Proof.
  intros Hstart Hbefore Hafter Hbound.
  pose proof (exec_invariant_count Booked
                (fun n a ma mb Hn HB Hs => proj1 (step_booked n a ma mb Hn HB Hs))
                before 0 m0 m1 ltac:(lia) (start_booked _ _ _ _ _ Hstart) Hbefore) as HB1.
  cbn [Z.add] in HB1.
  set (P := fun n m => Booked n m /\
                       (n < 2 ^ 63 -> Grown (stats (world m1)) (stats (world m)))).
  assert (HP : P (Z.of_nat (length before) + Z.of_nat (length after)) m2).
  { apply (exec_invariant_count P) with (m := m1); [|lia| |exact Hafter].
    - intros n a ma mb Hn [HB HG] Hs.
      destruct (step_booked n a ma mb Hn HB Hs) as [HB' HG'].
      split; [exact HB'|]. intros Hlt.
      eapply Grown_trans; [apply HG; lia|apply HG'; exact Hlt].
    - split; [exact HB1|]. intros _. apply Grown_refl. }
  destruct HP as [_ HG]. exact (HG Hbound).
Qed.

End MoreRunProperties.

(** ** The channel, the pool and the end of a run *)

Section Shutdown.

Context {FS : Type} {os : OS FS}.
Implicit Types (m : @Machine FS) (w : @World FS).

Ltac split_step H :=
  try discriminate H;
  repeat match type of H with
         | context [match ?x with _ => _ end] => destruct x eqn:?; try discriminate H
         end;
  repeat match goal with
         | E : wgAdd _ _ = Some _ |- _ => apply wgAdd_some in E as [? ->]
         end.

Ltac project :=
  unfold setWorker, setJobs, setWorld, setMain in *;
  cbn [options world jobs bufferSize jobsClosed jobsWg pool mainPC statsDone
       held seedRegistered length fs stats log] in *.

(** Opens every step of a goroutine on its tests. *)
Ltac open_step Hstep :=
  unfold step, stepMain, worker, statsReporter, send in Hstep;
  split_step Hstep; injection Hstep as <-; project.

Lemma heldBy_le ws : heldBy ws <= 2 * Z.of_nat (length ws).
Proof.
  induction ws as [|pc ws IH]; cbn [heldBy length]; [lia|].
  destruct pc; cbn [held]; lia.
Qed.

Lemma step_bounded capacity workers a m m' :
  Bounded capacity workers m -> step a m = Next m' -> Bounded capacity workers m'.
Proof.
  intros (Hcap & Hlen & Hpool) Hstep. unfold Bounded.
  destruct a as [|i|]; open_step Hstep;
    rewrite ?length_app, ?length_insert; cbn [length];
    repeat match goal with
           | E : jobs m = _ |- _ => rewrite E in *; clear E
           end; cbn [length] in *; repeat split; lia.
Qed.

Lemma started_capacity fs0 source target opts m0 :
  performMove fs0 source target opts = Started m0 ->
  1 <= (if Buffer opts =? 0 then 100000 else Buffer opts).
Proof.
  unfold performMove. intros Hstart.
  repeat match type of Hstart with
         | context [match ?x with _ => _ end] => destruct x eqn:?; try discriminate Hstart
         end; lia.
Qed.

Lemma run_bounded fs0 source target opts m0 schedule m :
  performMove fs0 source target opts = Started m0 ->
  exec schedule m0 = Some m ->
  Bounded (if Buffer opts =? 0 then 100000 else Buffer opts)
          (Z.to_nat (Workers opts)) m.
Proof.
  intros Hstart Hexec.
  eapply (exec_invariant (Bounded _ _)); [| |exact Hexec].
  - intros a m1 m2. apply step_bounded.
  - pose proof (started_capacity _ _ _ _ _ Hstart).
    apply performMove_started in Hstart as (_ & _ & ->).
    unfold Bounded. cbn. rewrite length_replicate. repeat split. lia.
Qed.

(** X6: the channel is always buffered, its capacity being [opts.Buffer] or,
    when that is 0, 100000; at every point of every run it holds no more
    jobs than its capacity, the pool has the [opts.Workers] workers it
    started with, and the WaitGroup counter is at most the capacity plus two
    per worker plus one. *)
Theorem queue_never_exceeds_buffer fs0 source target opts m0 schedule m :
  performMove fs0 source target opts = Started m0 ->
  exec schedule m0 = Some m ->
  bufferSize m = (if Buffer opts =? 0 then 100000 else Buffer opts) /\
  1 <= bufferSize m /\
  Z.of_nat (length (jobs m)) <= bufferSize m /\
  length (pool m) = Z.to_nat (Workers opts) /\
  jobsWg m <= bufferSize m + 2 * Z.of_nat (length (pool m)) + 1.
Proof.
  intros Hstart Hexec.
  pose proof (run_synced _ _ _ _ _ _ _ Hstart Hexec) as [Hwg _].
  destruct (run_bounded _ _ _ _ _ _ _ Hstart Hexec) as (Hcap & Hlen & Hpool).
  pose proof (started_capacity _ _ _ _ _ Hstart) as Hpos.
  rewrite Hcap. repeat split; try assumption; try lia.
  unfold outstanding in Hwg. pose proof (heldBy_le (pool m)).
  assert (seedRegistered (mainPC m) <= 1) by (destruct (mainPC m); cbn; lia).
  lia.
Qed.

Lemma step_stranded w0 a m m' :
  Stranded w0 m -> step a m = Next m' -> Stranded w0 m'.
Proof.
  intros (Hpool & Hfs & Hst & Hsys & Hmain) Hstep. unfold Stranded.
  destruct a as [|i|].
  - unfold step, stepMain, send in Hstep.
    destruct (mainPC m) eqn:Hpc; try tauto;
      split_step Hstep; injection Hstep as <-; project;
      rewrite ?Hpc; repeat split; try tauto; lia.
  - cbn in Hstep. unfold worker in Hstep. rewrite Hpool in Hstep. discriminate.
  - open_step Hstep. unfold syscalls in *. rewrite List.filter_app, Hsys. cbn.
    rewrite app_nil_r. tauto.
Qed.

Lemma run_stranded fs0 source target opts m0 schedule m :
  Workers opts <= 0 ->
  performMove fs0 source target opts = Started m0 ->
  exec schedule m0 = Some m ->
  Stranded (world m0) m.
Proof.
  intros Hw Hstart Hexec.
  eapply (exec_invariant (Stranded _)); [| |exact Hexec].
  - intros a m1 m2. apply step_stranded.
  - apply performMove_started in Hstart as (_ & _ & ->).
    unfold Stranded. cbn. replace (Z.to_nat (Workers opts)) with 0%nat by lia.
    cbn. repeat (split; [reflexivity|]). reflexivity.
Qed.

(** X7: with [opts.Workers] zero or negative no goroutine takes the seed
    job: [performMove] never gets past [jobsWg.Wait()], so it never returns,
    and the file system and the counters stay as they were. *)
Theorem no_worker_never_returns fs0 source target opts m0 schedule m :
  Workers opts <= 0 ->
  performMove fs0 source target opts = Started m0 ->
  exec schedule m0 = Some m ->
  (forall r, mainPC m <> MReturned r) /\
  mainPC m <> MClose /\ mainPC m <> MFinish /\
  fs (world m) = fs0 /\ stats (world m) = zeroStatistics /\
  syscalls (log (world m)) = [SysLstat source; SysLstat target].
Proof.
  intros Hw Hstart Hexec.
  pose proof (run_stranded _ _ _ _ _ _ _ Hw Hstart Hexec) as HS.
  apply performMove_started in Hstart as (_ & _ & ->).
  destruct HS as (_ & Hfs & Hst & Hsys & Hmain). cbn in Hfs, Hst, Hsys.
  repeat split; try assumption; intros; intro Hpc; rewrite Hpc in Hmain; exact Hmain.
Qed.

Lemma step_orderly a m m' : Orderly m -> step a m = Next m' -> Orderly m'.
Proof.
  intros [Hexit Hrep] Hstep. unfold Orderly.
  destruct a as [|i|].
  - unfold step, stepMain, send in Hstep.
    destruct (mainPC m) eqn:Hpc; split_step Hstep; injection Hstep as <-; project;
      rewrite ?Hpc; split; try tauto; try discriminate.
    congruence.
  - unfold step, worker, send in Hstep.
    destruct (pool m !! i) as [pc|] eqn:Hi; [|discriminate].
    destruct pc as [|job|[|newJob rest]|newJob rest|];
      split_step Hstep; injection Hstep as <-; project;
      (split; [|exact Hrep]); intros Hopen;
      try (apply Forall_insert;
           [apply Hexit; first [exact Hopen|reflexivity]|discriminate]);
      congruence.
  - unfold step, statsReporter in Hstep.
    split_step Hstep; injection Hstep as <-; project. tauto.
Qed.

Lemma run_orderly fs0 source target opts m0 schedule m :
  performMove fs0 source target opts = Started m0 ->
  exec schedule m0 = Some m -> Orderly m.
Proof.
  intros Hstart Hexec.
  eapply (exec_invariant Orderly); [| |exact Hexec].
  - intros a m1 m2. apply step_orderly.
  - apply performMove_started in Hstart as (_ & _ & ->).
    unfold Orderly. cbn. split; [|exact I]. intros _.
    apply Forall_replicate. discriminate.
Qed.

Lemma heldBy_positive ws :
  0 < heldBy ws -> exists i pc, ws !! i = Some pc /\ inFlight pc = true.
Proof.
  induction ws as [|x ws IH]; cbn [heldBy]; [lia|]. intros Hpos.
  destruct (inFlight x) eqn:Hx.
  - exists 0%nat, x. split; [reflexivity|exact Hx].
  - assert (held x = 0) by (destruct x; cbn in *; try discriminate; reflexivity).
    destruct IH as (i & pc & Hi & Hpc); [lia|].
    exists (S i), pc. split; [exact Hi|exact Hpc].
Qed.

(** X8: a run with at least one worker is never stuck while the channel has
    room: at every point before [performMove] has returned, [performMove]
    or a worker can make its next move. *)
Theorem never_stuck_with_room fs0 source target opts m0 schedule m :
  1 <= Workers opts ->
  performMove fs0 source target opts = Started m0 ->
  exec schedule m0 = Some m ->
  Z.of_nat (length (jobs m)) < bufferSize m ->
  (forall r, mainPC m <> MReturned r) ->
  exists a m', a <> AReporter /\ step a m = Next m'.
Proof.
  intros Hworkers Hstart Hexec Hroom Hrun.
  enough (Hmove : (exists m', step AMain m = Next m') \/
                  (exists i m', step (AWorker i) m = Next m')).
  { destruct Hmove as [[m' Hstep]|(i & m' & Hstep)].
    - exists AMain, m'. split; [discriminate|exact Hstep].
    - exists (AWorker i), m'. split; [discriminate|exact Hstep]. }
  pose proof (run_synced _ _ _ _ _ _ _ Hstart Hexec) as [Hwg Hmain].
  pose proof (run_orderly _ _ _ _ _ _ _ Hstart Hexec) as [Hexit _].
  destruct (run_bounded _ _ _ _ _ _ _ Hstart Hexec) as (_ & _ & Hpool).
  assert (Hlt : (Z.of_nat (length (jobs m)) <? bufferSize m) = true) by lia.
  unfold outstanding in Hwg. pose proof (heldBy_nonneg (pool m)) as Hnn.
  destruct (mainPC m) as [seed|seed| | | |r] eqn:Hpc; cbn in Hwg.
  - left. cbn. unfold stepMain, wgAdd. rewrite Hpc.
    destruct (jobsWg m + 1 <? 0) eqn:Hneg; [lia|]. eauto.
  - left. cbn. unfold stepMain, send. rewrite Hpc, Hmain, Hlt. eauto.
  - destruct (Z.eq_dec (jobsWg m) 0) as [Hz|Hnz].
    { left. cbn. unfold stepMain. rewrite Hpc, Hz. cbn. eauto. }
    destruct (Z_lt_le_dec 0 (heldBy (pool m))) as [Hheld|Hidle].
    + destruct (heldBy_positive _ Hheld) as (i & pc & Hi & Hfl).
      right; exists i. cbn. unfold worker, send, wgAdd. rewrite Hi, Hmain, Hlt.
      destruct pc as [|job|[|newJob rest]|newJob rest|]; try discriminate.
      * destruct (processPath _ _ _ _). eauto.
      * destruct (jobsWg m + -1 <? 0) eqn:Hneg; [|eauto].
        pose proof (heldBy_lookup _ _ _ Hi) as Hle. cbn in Hle. lia.
      * destruct (jobsWg m + 1 <? 0) eqn:Hneg; [lia|eauto].
      * eauto.
    + destruct (jobs m) as [|job q] eqn:Hjobs; [cbn in Hwg; lia|].
      destruct (pool m) as [|pc ws] eqn:Hws; [cbn in Hpool; lia|].
      right; exists 0%nat. cbn. unfold worker. rewrite Hws, Hjobs. cbn.
      specialize (Hexit Hmain). rewrite Forall_cons in Hexit. destruct Hexit as [Hne _].
      cbn [heldBy] in Hidle, Hnn. pose proof (heldBy_nonneg ws).
      destruct pc; cbn in *; try lia; [eauto|congruence].
  - left. cbn. unfold stepMain. rewrite Hpc.
    destruct Hmain as [_ ->]. eauto.
  - left. cbn. unfold stepMain. rewrite Hpc. eauto.
  - destruct (Hrun r eq_refl).
Qed.

End Shutdown.

(** ** Where the jobs of a run come from, and what the output options change *)

Section WholeRuns.

Context {FS : Type} {os : OS FS}.
Implicit Types (m : @Machine FS) (w : @World FS).

Ltac split_step H :=
  try discriminate H;
  repeat match type of H with
         | context [match ?x with _ => _ end] => destruct x eqn:?; try discriminate H
         end;
  repeat match goal with
         | E : wgAdd _ _ = Some _ |- _ => apply wgAdd_some in E as [? ->]
         end.

Ltac project :=
  unfold setWorker, setJobs, setWorld, setMain in *;
  cbn [options world jobs bufferSize jobsClosed jobsWg pool mainPC statsDone
       fs stats log carried seedOf] in *.

(** Closes the parts of an invariant that a step leaves as they were. *)
Ltac settle :=
  repeat split; auto;
  try (match goal with E : jobs _ = _ |- _ => rewrite E end; assumption);
  try (apply Forall_insert; auto).

Lemma syscalls_print l msg :
  syscalls (l ++ [Stdout msg]) = syscalls l.
Proof. unfold syscalls. rewrite List.filter_app. cbn. apply app_nil_r. Qed.

Lemma step_selfMerge w0 a m m' :
  SelfMerge w0 m -> step a m = Next m' -> SelfMerge w0 m'.
Proof.
  intros (Hfs & Hst & Hsys & Hq & Hpool & Hmain) Hstep. unfold SelfMerge.
  destruct a as [|i|].
  - unfold step, stepMain, send in Hstep.
    destruct (mainPC m) eqn:Hpc; split_step Hstep; injection Hstep as <-; project;
      rewrite ?syscalls_print; settle.
    apply Forall_app; split; [exact Hq|]. constructor; [exact Hmain|constructor].
  - unfold step, worker, send in Hstep.
    destruct (pool m !! i) as [pc|] eqn:Hi; [|discriminate].
    pose proof (Forall_lookup_1 _ _ _ _ Hpool Hi) as Hpc. cbn in Hpc.
    destruct pc as [|job|[|newJob rest]|newJob rest|];
      try discriminate; try contradiction.
    + destruct (jobs m) as [|job q] eqn:Hjobs.
      * split_step Hstep. injection Hstep as <-. project. settle.
      * injection Hstep as <-. project. inversion Hq; subst. settle.
    + unfold selfJob in Hpc. rewrite Hpc, processPath_same_path in Hstep.
      injection Hstep as <-. project. settle.
    + split_step Hstep. injection Hstep as <-. project. settle.
  - unfold step, statsReporter in Hstep.
    split_step Hstep; injection Hstep as <-; project.
    rewrite syscalls_print. settle.
Qed.

Lemma run_selfMerge fs0 path opts m0 schedule m :
  performMove fs0 path path opts = Started m0 ->
  exec schedule m0 = Some m ->
  syscalls (log (world m)) = [SysLstat path; SysLstat path] /\
  fs (world m) = fs0 /\
  stats (world m) = zeroStatistics /\
  (forall r, mainPC m = MReturned r -> r = None).
Proof.
  intros Hstart Hexec.
  assert (HS : SelfMerge (world m0) m).
  { eapply (exec_invariant (SelfMerge _)); [| |exact Hexec].
    - intros a m1 m2. apply step_selfMerge.
    - apply performMove_started in Hstart as (_ & _ & ->).
      unfold SelfMerge. cbn. repeat split; auto.
      apply Forall_replicate. exact I. }
  destruct (run_synced _ _ _ _ _ _ _ Hstart Hexec) as [_ Hmain].
  apply performMove_started in Hstart as (_ & _ & ->).
  destruct HS as (Hfs & Hst & Hsys & _). cbn in Hfs, Hst, Hsys.
  repeat split; try assumption.
  intros r Hpc. rewrite Hpc in Hmain. destruct Hmain as (_ & _ & ->).
  rewrite Hst. reflexivity.
Qed.

(** X10: merging a directory into itself does nothing.  When the two paths
    given to [performMove] are the same string, the only calls to the system
    in the whole run are the two [os.Lstat] of the validation, the file
    system and the counters stay as they were, and if the run returns it
    returns no error. *)
Theorem merging_into_itself_is_a_no_op fs0 path opts m0 schedule m :
  performMove fs0 path path opts = Started m0 ->
  exec schedule m0 = Some m ->
  syscalls (log (world m)) = [SysLstat path; SysLstat path] /\
  fs (world m) = fs0 /\
  stats (world m) = zeroStatistics /\
  (forall r, mainPC m = MReturned r -> r = None).
Proof.
  intros Hstart Hexec. exact (run_selfMerge _ _ _ _ _ _ Hstart Hexec).
Qed.

Lemma step_mirrored Canonical Entry Sound source target a m m' :
  PathLaws Canonical Entry Sound ->
  Mirrored Entry Sound source target m -> step a m = Next m' ->
  Mirrored Entry Sound source target m'.
Proof.
  intros Hlaws (Hsound & Hlog & Hq & Hpool & Hseed) Hstep. unfold Mirrored.
  destruct a as [|i|].
  - unfold step, stepMain, send in Hstep.
    destruct (mainPC m) eqn:Hpc; split_step Hstep; injection Hstep as <-; project;
      settle; try (constructor; fail);
      apply Forall_app; split; try assumption; repeat constructor.
  - unfold step, worker, send in Hstep.
    destruct (pool m !! i) as [pc|] eqn:Hi; [|discriminate].
    pose proof (Forall_lookup_1 _ _ _ _ Hpool Hi) as Hpc. cbn in Hpc.
    destruct pc as [|job|[|newJob rest]|newJob rest|]; try discriminate.
    + destruct (jobs m) as [|job q] eqn:Hjobs.
      * split_step Hstep. injection Hstep as <-. project. settle; constructor.
      * injection Hstep as <-. project. inversion Hq; subst. settle; cbn; auto.
    + inversion Hpc as [|? ? Hjob _]; subst.
      destruct job as [s t].
      destruct (processPath_mirrors Canonical Entry Sound source target
                  (options m) (world m) s t Hlaws Hsound Hjob Hlog)
        as (Hsound' & Hlog' & Hnew).
      cbn [SourcePath TargetPath] in Hstep.
      destruct (processPath s t (options m) (world m)) as [newJobs w'].
      injection Hstep as <-. project. settle.
    + split_step Hstep. injection Hstep as <-. project. settle; constructor.
    + split_step Hstep. injection Hstep as <-. project. settle.
    + split_step Hstep. injection Hstep as <-. project.
      inversion Hpc; subst. settle;
      apply Forall_app; split; [assumption|]; constructor; [assumption|constructor].
  - unfold step, statsReporter in Hstep.
    split_step Hstep; injection Hstep as <-; project.
    settle; apply Forall_app; split; [assumption|]; repeat constructor.
Qed.

Lemma run_mirrored Canonical Entry Sound fs0 source target opts m0 schedule m :
  PathLaws Canonical Entry Sound ->
  Sound fs0 ->
  performMove fs0 source target opts = Started m0 ->
  exec schedule m0 = Some m ->
  Mirrored Entry Sound source target m.
Proof.
  intros Hlaws Hsound Hstart Hexec.
  eapply (exec_invariant (Mirrored _ _ _ _)); [| |exact Hexec].
  - intros a m1 m2. apply (step_mirrored Canonical), Hlaws.
  - apply performMove_started in Hstart as (_ & _ & ->).
    unfold Mirrored. cbn. split; [exact Hsound|]. repeat split; repeat constructor.
    + apply Forall_replicate. constructor.
    + exists []. cbn. auto.
Qed.

Lemma descend_canonical Canonical Entry Sound names : forall root,
  PathLaws Canonical Entry Sound ->
  Canonical root -> Forall Entry names -> Canonical (descend root names).
Proof.
  induction names as [|n names IH]; intros root Hlaws Hroot Hall; cbn; [exact Hroot|].
  inversion Hall as [|? ? Hn Hrest]; subst.
  apply IH; [exact Hlaws| |exact Hrest].
  apply (join_canonical _ _ _ Hlaws); assumption.
Qed.

(** The same names lead from two different roots to two different paths. *)
Lemma descend_injective Canonical Entry Sound names : forall s t,
  PathLaws Canonical Entry Sound ->
  Canonical s -> Canonical t -> Forall Entry names ->
  descend s names = descend t names -> s = t.
Proof.
  induction names as [|n names IH]; intros s t Hlaws Hs Ht Hall Heq; cbn in Heq;
    [exact Heq|].
  inversion Hall as [|? ? Hn Hrest]; subst.
  apply (join_injective _ _ _ Hlaws s t n Hs Ht Hn).
  apply IH; try assumption; apply (join_canonical _ _ _ Hlaws); assumption.
Qed.

(** X11: every job of a run is for a place under the source root and the
    same place under the target root: its two paths are the roots with the
    same entry names joined to each, names that [os.ReadDir] returned, and
    both are canonical.  So every [os.Rename] of the run goes from a place
    under the source to the same place under the target, and [os.ReadDir]
    is only ever called on a place under the source. *)
Theorem jobs_mirror_the_source
    Canonical Entry Sound fs0 source target opts m0 schedule m :
  PathLaws Canonical Entry Sound ->
  Canonical source -> Canonical target -> Sound fs0 ->
  performMove fs0 source target opts = Started m0 ->
  exec schedule m0 = Some m ->
  (forall j, In j (jobs m) ->
     Mirrors Entry source target j /\
     Canonical (SourcePath j) /\ Canonical (TargetPath j)) /\
  (forall i pc j, pool m !! i = Some pc -> In j (carried pc) ->
     Mirrors Entry source target j /\
     Canonical (SourcePath j) /\ Canonical (TargetPath j)) /\
  (forall a b e, In (SysRename a b e) (log (world m)) ->
     Canonical a /\ Canonical b /\
     exists names,
       Forall Entry names /\ a = descend source names /\ b = descend target names) /\
  (forall p, In (SysReadDir p) (log (world m)) ->
     Canonical p /\
     exists names, Forall Entry names /\ p = descend source names).
Proof.
  intros Hlaws Hsource Htarget Hsound Hstart Hexec.
  destruct (run_mirrored _ _ _ _ _ _ _ _ _ _ Hlaws Hsound Hstart Hexec)
    as (_ & Hlog & Hq & Hpool & _).
  rewrite List.Forall_forall in Hlog, Hq.
  assert (Hjob : forall j, Mirrors Entry source target j ->
            Mirrors Entry source target j /\
            Canonical (SourcePath j) /\ Canonical (TargetPath j)).
  { intros j Hj. split; [exact Hj|]. destruct Hj as (names & Hall & -> & ->).
    split; apply (descend_canonical Canonical Entry Sound); assumption. }
  split; [intros j Hin; apply Hjob, Hq, Hin|].
  split.
  { intros i pc j Hi Hj. pose proof (Forall_lookup_1 _ _ _ _ Hpool Hi) as Hpc.
    rewrite List.Forall_forall in Hpc. apply Hjob, Hpc, Hj. }
  split.
  - intros a b e Hin. destruct (Hlog _ Hin) as (names & Hall & -> & ->).
    split; [apply (descend_canonical Canonical Entry Sound); assumption|].
    split; [apply (descend_canonical Canonical Entry Sound); assumption|].
    exists names. auto.
  - intros p Hin. destruct (Hlog _ Hin) as (names & Hall & ->).
    split; [apply (descend_canonical Canonical Entry Sound); assumption|].
    exists names. auto.
Qed.

Lemma step_onlySeed path a m m' :
  OnlySeed (mkJob path path) m -> step a m = Next m' -> OnlySeed (mkJob path path) m'.
Proof.
  intros (Hq & Hpool & Hmain) Hstep. unfold OnlySeed.
  destruct a as [|i|].
  - unfold step, stepMain, send in Hstep.
    destruct (mainPC m) eqn:Hpc; split_step Hstep; injection Hstep as <-; project;
      settle; try (constructor; fail).
    apply Forall_app; split; [exact Hq|exact Hmain].
  - unfold step, worker, send in Hstep.
    destruct (pool m !! i) as [pc|] eqn:Hi; [|discriminate].
    pose proof (Forall_lookup_1 _ _ _ _ Hpool Hi) as Hpc. cbn in Hpc.
    destruct pc as [|job|[|newJob rest]|newJob rest|];
      try discriminate; try contradiction.
    + destruct (jobs m) as [|job q] eqn:Hjobs.
      * split_step Hstep. injection Hstep as <-. project. settle.
      * injection Hstep as <-. project. inversion Hq; subst. settle.
    + subst job. cbn [SourcePath TargetPath] in Hstep.
      rewrite processPath_same_path in Hstep.
      injection Hstep as <-. project. settle.
    + split_step Hstep. injection Hstep as <-. project. settle.
  - unfold step, statsReporter in Hstep.
    split_step Hstep; injection Hstep as <-; project. settle.
Qed.

Lemma run_onlySeed fs0 path opts m0 schedule m :
  performMove fs0 path path opts = Started m0 ->
  exec schedule m0 = Some m ->
  OnlySeed (mkJob path path) m.
Proof.
  intros Hstart Hexec.
  eapply (exec_invariant (OnlySeed _)); [| |exact Hexec].
  - intros a m1 m2. apply step_onlySeed.
  - apply performMove_started in Hstart as (_ & _ & ->).
    unfold OnlySeed. cbn. repeat split; repeat constructor.
    apply Forall_replicate. exact I.
Qed.

Lemma wgAdd_hush m delta :
  wgAdd (hush m) delta = option_map hush (wgAdd m delta).
Proof. unfold wgAdd, hush. cbn. destruct (jobsWg m + delta <? 0); reflexivity. Qed.

Lemma step_hush a m m' :
  notReporter a = true -> step a m = Next m' -> step a (hush m) = Next (hush m').
Proof.
  intros Ha Hstep. destruct a as [|i|]; [| |discriminate].
  - unfold step, stepMain, send in *. rewrite wgAdd_hush. cbn.
    destruct (mainPC m) eqn:Hpc; split_step Hstep; try (injection Hstep as <-);
      cbn; rewrite ?Heqb, ?Heqb0; try reflexivity.
    unfold hush, hushWorld. cbn. rewrite syscalls_print. reflexivity.
  - unfold step, worker, send in *. rewrite !wgAdd_hush. cbn.
    destruct (pool m !! i) as [pc|] eqn:Hi; [|discriminate].
    destruct pc as [|job|[|newJob rest]|newJob rest|]; try discriminate.
    + destruct (jobs m) as [|job q] eqn:Hjobs.
      * destruct (jobsClosed m); [|discriminate]. injection Hstep as <-. reflexivity.
      * injection Hstep as <-. reflexivity.
    + rewrite processPath_hush.
      destruct (processPath _ _ (options m) (world m)) as [newJobs w'].
      injection Hstep as <-. reflexivity.
    + unfold wgAdd in *. destruct (jobsWg m + -1 <? 0); [discriminate|].
      injection Hstep as <-. reflexivity.
    + unfold wgAdd in *. destruct (jobsWg m + 1 <? 0); [discriminate|].
      injection Hstep as <-. reflexivity.
    + destruct (jobsClosed m); [discriminate|].
      destruct (Z.of_nat (length (jobs m)) <? bufferSize m); [|discriminate].
      injection Hstep as <-. reflexivity.
Qed.

Lemma tick_hush m m' : step AReporter m = Next m' -> hush m' = hush m.
Proof.
  cbn. unfold statsReporter. intros Hstep.
  split_step Hstep. injection Hstep as <-. unfold hush, hushWorld. cbn.
  rewrite syscalls_print. reflexivity.
Qed.

Lemma exec_hush schedule : forall m m',
  exec schedule m = Some m' ->
  exec (List.filter notReporter schedule) (hush m) = Some (hush m').
Proof.
  induction schedule as [|a rest IH]; intros m m' Hexec; cbn in Hexec.
  - injection Hexec as <-. reflexivity.
  - destruct (step a m) as [| |m1] eqn:Hstep; try discriminate.
    cbn [List.filter]. destruct (notReporter a) eqn:Ha.
    + cbn [exec]. rewrite (step_hush _ _ _ Ha Hstep). apply IH, Hexec.
    + destruct a; try discriminate. rewrite <- (tick_hush _ _ Hstep). apply IH, Hexec.
Qed.

Lemma started_hush fs0 source target opts m0 :
  performMove fs0 source target opts = Started m0 ->
  performMove fs0 source target (quiet opts) = Started (hush m0).
Proof.
  intros Hstart.
  pose proof Hstart as Hs. apply performMove_started in Hs as (H1 & H2 & ->).
  unfold performMove in *. rewrite H1, H2 in *. cbn.
  destruct ((if Buffer opts =? 0 then 100000 else Buffer opts) <? 0); [discriminate|].
  reflexivity.
Qed.

(** X12: [--verbose], [--stats] and the reporter change nothing but the
    output.  The run without the two options, under the same schedule less
    the reporter's ticks, goes through the same states: the same jobs, the
    same WaitGroup counter, the same calls to the system, counters and file
    system, and the same result. *)
Theorem output_options_change_only_the_output fs0 source target opts m0 schedule m :
  performMove fs0 source target opts = Started m0 ->
  exec schedule m0 = Some m ->
  performMove fs0 source target (quiet opts) = Started (hush m0) /\
  exec (List.filter notReporter schedule) (hush m0) = Some (hush m) /\
  mainPC (hush m) = mainPC m /\
  fs (world (hush m)) = fs (world m) /\
  stats (world (hush m)) = stats (world m) /\
  log (world (hush m)) = syscalls (log (world m)).
Proof.
  intros Hstart Hexec. split; [|split; [apply exec_hush, Hexec|auto]].
  apply started_hush, Hstart.
Qed.

(** A late tick of the reporter is output only. *)
Lemma late_tick_hush m m' : lateReporter m = Next m' -> hush m' = hush m.
Proof.
  unfold lateReporter. intros Hstep.
  split_step Hstep. injection Hstep as <-. unfold hush, hushWorld. cbn.
  rewrite syscalls_print. reflexivity.
Qed.

Lemma lateExec_hush schedule : forall m m',
  lateExec schedule m = Some m' ->
  exec (List.filter notReporter schedule) (hush m) = Some (hush m').
Proof.
  induction schedule as [|a rest IH]; intros m m' Hexec; cbn in Hexec.
  - injection Hexec as <-. reflexivity.
  - destruct (lateStep a m) as [| |m1] eqn:Hstep; try discriminate.
    cbn [List.filter]. destruct (notReporter a) eqn:Ha.
    + cbn [exec]. assert (Hs : step a m = Next m1) by (destruct a; [exact Hstep..|discriminate]).
      rewrite (step_hush _ _ _ Ha Hs). apply IH, Hexec.
    + destruct a; try discriminate. cbn in Hstep.
      rewrite <- (late_tick_hush _ _ Hstep). apply IH, Hexec.
Qed.

Lemma lateExec_invariant (P : Machine -> Prop) :
  (forall a m m', P m -> lateStep a m = Next m' -> P m') ->
  forall schedule m m', P m -> lateExec schedule m = Some m' -> P m'.
Proof.
  intros Hstep schedule. induction schedule as [|a rest IH]; intros m m' HP Hexec.
  - cbn in Hexec. injection Hexec as <-. exact HP.
  - cbn in Hexec. destruct (lateStep a m) as [| |m1] eqn:Ha; try discriminate.
    eapply IH; [|exact Hexec]. eapply Hstep; eauto.
Qed.

(** X9: what [performMove] returns is final, even with the reporter still
    printing.  The runs are those in which a tick of the reporter can be
    served at any time, also after [close(statsDone)].  From the state in
    which [performMove] returned, whatever the goroutines still do, the
    result, the counters and the file system stay as they are and no call
    to the system is made: all that is added to the output is progress
    lines of the reporter; the channel is empty, the WaitGroup is at zero,
    [performMove] makes no further move, and all a worker can still do is
    leave its loop. *)
Theorem result_is_final fs0 source target opts m0 before after m1 m2 r :
  performMove fs0 source target opts = Started m0 ->
  lateExec before m0 = Some m1 ->
  mainPC m1 = MReturned r ->
  lateExec after m1 = Some m2 ->
  mainPC m2 = MReturned r /\
  fs (world m2) = fs (world m1) /\
  stats (world m2) = stats (world m1) /\
  (exists lines, log (world m2) = log (world m1) ++ lines /\ Forall isProgress lines) /\
  jobs m2 = [] /\ jobsWg m2 = 0 /\
  (forall i pc, pool m2 !! i = Some pc -> pc = WRecv \/ pc = WExit) /\
  lateStep AMain m2 = Blocked /\
  (forall i, pool m2 !! i = Some WRecv ->
             lateStep (AWorker i) m2 = Next (setWorker m2 i WExit)).
Proof.
  intros Hstart Hbefore Hpc Hafter.
  set (P := fun m =>
              mainPC m = MReturned r /\ jobs m = [] /\ jobsWg m = 0 /\
              jobsClosed m = true /\
              Forall (fun pc => pc = WRecv \/ pc = WExit) (pool m) /\
              fs (world m) = fs (world m1) /\ stats (world m) = stats (world m1) /\
              exists lines, log (world m) = log (world m1) ++ lines /\
                            Forall isProgress lines).
  assert (HP : P m2).
  { apply (lateExec_invariant P) with (schedule := after) (m := m1); [| |exact Hafter].
    - intros a ma mb (Hr & Hq & Hz & Hcl & Hpool & Hfs & Hst & lines & Hlog & Hlines) Hstep.
      destruct a as [|i|].
      + cbn in Hstep. unfold stepMain in Hstep. rewrite Hr in Hstep. discriminate.
      + cbn in Hstep. unfold worker, send in Hstep.
        destruct (pool ma !! i) as [pc|] eqn:Hi; [|discriminate].
        pose proof (Forall_lookup_1 _ _ _ _ Hpool Hi) as [->| ->]; [|discriminate].
        rewrite Hq, Hcl in Hstep. injection Hstep as <-. project.
        repeat (split; [assumption|]).
        split; [apply Forall_insert; auto|]. eauto.
      + cbn in Hstep. unfold lateReporter in Hstep.
        split_step Hstep. injection Hstep as <-. project.
        repeat (split; [assumption|]).
        exists (lines ++ [Stdout (Progress (stats (world ma)))]).
        unfold emit. cbn [snd log]. rewrite Hlog, app_assoc. split; [reflexivity|].
        apply Forall_app. split; [exact Hlines|].
        constructor; [eexists; reflexivity|constructor].
    - pose proof (lateExec_hush _ _ _ Hbefore) as Hquiet.
      pose proof (run_synced _ _ _ _ _ _ _ (started_hush _ _ _ _ _ Hstart) Hquiet) as HS.
      pose proof HS as [_ Hmain]. cbn [hush mainPC] in Hmain. rewrite Hpc in Hmain.
      destruct Hmain as (Hz & Hcl & _). cbn in Hz, Hcl.
      destruct (synced_zero _ HS Hz) as [Hq Hidle]. cbn in Hq, Hidle.
      unfold P. split; [exact Hpc|]. split; [exact Hq|]. split; [exact Hz|].
      split; [exact Hcl|]. split.
      { apply Forall_lookup_2. intros i pc Hi. specialize (Hidle i pc Hi).
        destruct pc; try discriminate; auto. }
      split; [reflexivity|]. split; [reflexivity|].
      exists []. rewrite app_nil_r. split; [reflexivity|constructor]. }
  destruct HP as (Hr & Hq & Hz & Hcl & Hpool & Hfs & Hst & Hlog).
  split; [exact Hr|]. split; [exact Hfs|]. split; [exact Hst|]. split; [exact Hlog|].
  split; [exact Hq|]. split; [exact Hz|].
  split; [intros i pc Hi; exact (Forall_lookup_1 _ _ _ _ Hpool Hi)|].
  split; [cbn; unfold stepMain; rewrite Hr; reflexivity|].
  intros i Hi. cbn. unfold worker. rewrite Hi, Hq, Hcl. reflexivity.
Qed.

End WholeRuns.

(** ** One worker and a channel too small *)

Section Clog.

Context {FS : Type} {os : OS FS}.
Implicit Types (m : @Machine FS) (w : @World FS).

Ltac split_step H :=
  try discriminate H;
  repeat match type of H with
         | context [match ?x with _ => _ end] => destruct x eqn:?; try discriminate H
         end;
  repeat match goal with
         | E : wgAdd _ _ = Some _ |- _ => apply wgAdd_some in E as [? ->]
         end.

Ltac project :=
  unfold setWorker, setJobs, setWorld, setMain in *;
  cbn [options world jobs bufferSize jobsClosed jobsWg pool mainPC statsDone
       fs stats log] in *.

Lemma step_clogged fs0 source target names capacity a m m' :
  source <> target ->
  checkRoot Source (Lstat fs0 source) = None ->
  checkRoot Target (Lstat fs0 target) = None ->
  ReadDir fs0 source = Ok names ->
  capacity < Z.of_nat (length names) ->
  let children := List.map (fun name => mkJob (Join source name) (Join target name)) names in
  Synced m /\ Bounded capacity 1 m /\ Clogged fs0 (mkJob source target) children m ->
  step a m = Next m' ->
  Synced m' /\ Bounded capacity 1 m' /\ Clogged fs0 (mkJob source target) children m'.
Proof.
  intros Hne Hsrc Htgt Hread Hmany children (HS & HB & HC) Hstep.
  split; [eapply step_synced; eauto|]. split; [eapply step_bounded; eauto|].
  destruct HS as [Hwg _]. destruct HB as (_ & Hlen & _).
  destruct HC as (Hopen & Hfs & Hshape). unfold Clogged, outstanding in *.
  destruct a as [|i|].
  - unfold step, stepMain, send in Hstep.
    destruct (mainPC m) eqn:Hpc;
      destruct (pool m) as [|[|job|[|newJob rest]|newJob rest|] [|? ?]] eqn:Hpool;
      try contradiction; cbn [heldBy held seedRegistered] in Hwg;
      split_step Hstep; try lia; injection Hstep as <-; project;
      rewrite ?Hpool; repeat split; auto; try tauto.
    + destruct Hshape as [-> Hq]. rewrite Hq. reflexivity.
    + rewrite Hshape in Hwg. cbn [length] in Hwg. lia.
  - unfold step, worker, send in Hstep.
    destruct (mainPC m) eqn:Hpc;
      destruct (pool m) as [|[|job|[|newJob rest]|newJob rest|] [|? ?]] eqn:Hpool;
      try contradiction; destruct i as [|i]; cbn [lookup list_lookup] in Hstep;
      try discriminate.
    + destruct Hshape as [_ Hq]. rewrite Hq, Hopen in Hstep. discriminate.
    + destruct Hshape as [_ Hq]. rewrite Hq, Hopen in Hstep. discriminate.
    + rewrite Hshape in Hstep. injection Hstep as <-. project.
      rewrite Hpc, Hpool. cbn. auto.
    + destruct Hshape as [-> Hq].
      destruct (checkRoot_passes _ _ Hsrc) as (info & Hs & Hdir & Hlink).
      destruct (checkRoot_passes _ _ Htgt) as (ti & Ht & _).
      rewrite <- Hfs in Hs, Ht, Hread.
      destruct (processPath_lists (options m) (world m) source target info ti names
                  Hne Hs Hlink Hdir Ht Hread) as [Hkids Hsame].
      cbn [SourcePath TargetPath] in Hstep.
      destruct (processPath source target (options m) (world m)) as [newJobs w'].
      cbn [fst snd] in Hkids, Hsame.
      injection Hstep as <-. project. rewrite Hpc, Hpool, Hq, Hkids, Hsame. cbn. auto.
    + exfalso. rewrite app_nil_r in Hshape.
      assert (length (jobs m) = length names)
        by (rewrite Hshape; unfold children; apply length_map).
      lia.
    + split_step Hstep. injection Hstep as <-. project.
      rewrite Hpc, Hpool. cbn. auto.
    + split_step Hstep. injection Hstep as <-. project.
      rewrite Hpc, Hpool. cbn. rewrite <- app_assoc. auto.
  - unfold step, statsReporter in Hstep.
    split_step Hstep; injection Hstep as <-; project. auto.
Qed.

(** X13: with one worker, when the source root has more entries than the
    channel holds, [performMove] never returns: the worker cannot send all
    the children of the root, so it never signals the root done, and the
    WaitGroup never comes back to zero. *)
Theorem one_worker_small_buffer_never_returns
    fs0 source target opts m0 names schedule m :
  Workers opts = 1 ->
  source <> target ->
  ReadDir fs0 source = Ok names ->
  (if Buffer opts =? 0 then 100000 else Buffer opts) < Z.of_nat (length names) ->
  performMove fs0 source target opts = Started m0 ->
  exec schedule m0 = Some m ->
  (forall r, mainPC m <> MReturned r) /\
  mainPC m <> MClose /\ mainPC m <> MFinish /\
  jobsClosed m = false /\
  fs (world m) = fs0.
Proof.
  intros Hone Hne Hread Hmany Hstart Hexec.
  set (capacity := if Buffer opts =? 0 then 100000 else Buffer opts) in *.
  set (children := List.map (fun name => mkJob (Join source name) (Join target name)) names).
  pose proof Hstart as Hs. apply performMove_started in Hs as (Hsrc & Htgt & Hm0).
  assert (HP : Synced m /\ Bounded capacity 1 m /\
               Clogged fs0 (mkJob source target) children m).
  { apply (exec_invariant
             (fun m => Synced m /\ Bounded capacity 1 m /\
                       Clogged fs0 (mkJob source target) children m))
      with (schedule := schedule) (m := m0); [| |exact Hexec].
    - intros a m1 m2. apply step_clogged; assumption.
    - split; [eapply performMove_synced; eauto|].
      pose proof (started_capacity _ _ _ _ _ Hstart) as Hpos. fold capacity in Hpos.
      subst m0. rewrite Hone. unfold Bounded, Clogged. cbn. repeat split; auto. lia. }
  destruct HP as (_ & _ & Hopen & Hfs & Hshape).
  repeat split; try assumption; intros; intro Hpc; rewrite Hpc in Hshape;
    exact Hshape.
Qed.

End Clog.

(** ** The command line *)

Section CommandLineProperties.

Context {FS : Type} {os : OS FS} {fp : Filepath}.
Implicit Types (m : @Machine FS).

(** X14: [cleanPath] gives a path in its final form.  For a path on which
    [filepath.Clean] is idempotent and [filepath.Abs], when it succeeds,
    returns a clean absolute path, the result of [cleanPath] is left as it
    is by [filepath.Clean] and by [cleanPath] itself; it is absolute, unless
    [filepath.Abs] failed, and then it is the cleaned relative path. *)
Theorem cleanPath_is_final p :
  Clean (Clean p) = Clean p ->
  (forall a, Abs (Clean p) = Ok a -> IsAbs a = true /\ Clean a = a) ->
  Clean (cleanPath p) = cleanPath p /\
  cleanPath (cleanPath p) = cleanPath p /\
  (IsAbs (cleanPath p) = true \/
   (exists e, Abs (Clean p) = Err e) /\ cleanPath p = Clean p).
Proof.
  intros Hclean Habs. unfold cleanPath.
  destruct (IsAbs (Clean p)) eqn:Hrooted; cbn [negb].
  - rewrite Hclean, Hrooted. cbn [negb]. auto.
  - destruct (Abs (Clean p)) as [a|e] eqn:Ha.
    + destruct (Habs a eq_refl) as [Hrooted' Hclean'].
      rewrite Hclean', Hrooted'. cbn [negb]. auto.
    + rewrite Hclean, Hrooted, Ha. cbn [negb].
      split; [reflexivity|]. split; [reflexivity|]. right. eauto.
Qed.

(** X15: two arguments that [cleanPath] brings to the same path name one
    directory, and [runMove] then does nothing: the only calls to the system
    are the two [os.Lstat] of the validation, on that path, the file system
    and the counters stay as they were, and a run that returns returns no
    error. *)
Theorem runMove_on_one_directory numCPU fs0 flags arg0 arg1 m0 schedule m :
  cleanPath arg0 = cleanPath arg1 ->
  runMove numCPU fs0 flags arg0 arg1 = Started m0 ->
  exec schedule m0 = Some m ->
  syscalls (log (world m)) = [SysLstat (cleanPath arg0); SysLstat (cleanPath arg0)] /\
  fs (world m) = fs0 /\
  stats (world m) = zeroStatistics /\
  (forall r, mainPC m = MReturned r -> r = None).
Proof.
  unfold runMove. intros <- Hstart Hexec.
  exact (run_selfMerge _ _ _ _ _ _ Hstart Hexec).
Qed.

(** X16: the number of workers of [runMove].  With [--workers] at zero (its
    default) the pool has [runtime.NumCPU()] workers, otherwise the number
    given, all through the run; with a negative number it has none, and
    [runMove] never returns. *)
Theorem runMove_workers numCPU fs0 flags arg0 arg1 m0 schedule m :
  1 <= numCPU ->
  runMove numCPU fs0 flags arg0 arg1 = Started m0 ->
  exec schedule m0 = Some m ->
  length (pool m) =
    Z.to_nat (if workersFlag flags =? 0 then numCPU else workersFlag flags) /\
  (0 <= workersFlag flags -> (1 <= length (pool m))%nat) /\
  (workersFlag flags < 0 ->
   pool m = [] /\ (forall r, mainPC m <> MReturned r) /\ fs (world m) = fs0).
Proof.
  unfold runMove. intros Hcpu Hstart Hexec.
  destruct (run_bounded _ _ _ _ _ _ _ Hstart Hexec) as (_ & _ & Hpool).
  cbn [Workers] in Hpool. split; [exact Hpool|]. split.
  - intros Hw. rewrite Hpool. destruct (workersFlag flags =? 0) eqn:Hz; lia.
  - intros Hw.
    assert (Hneg : Workers (mkOptions
                     (if workersFlag flags =? 0 then numCPU else workersFlag flags)
                     (bufferFlag flags) (statsFlag flags) (verboseFlag flags)
                     (dryRunFlag flags)) <= 0).
    { cbn [Workers]. destruct (workersFlag flags =? 0) eqn:Hz; lia. }
    pose proof (run_stranded _ _ _ _ _ _ _ Hneg Hstart Hexec) as HS.
    apply performMove_started in Hstart as (_ & _ & ->).
    destruct HS as (Hnone & Hfs & _ & _ & Hmain). cbn in Hfs.
    split; [exact Hnone|]. split; [|exact Hfs].
    intros r Hpc. rewrite Hpc in Hmain. exact Hmain.
Qed.

End CommandLineProperties.

(** ** The in-memory file system keeps the laws of paths *)

Section MemLaws.

Import MemFS MemPaths.

Lemma append_empty (s : string) : String.append s "" = s.
Proof. induction s as [|c s IH]; cbn; [reflexivity|]. rewrite IH. reflexivity. Qed.

Lemma append_assoc (a b c : string) :
  String.append (String.append a b) c = String.append a (String.append b c).
Proof. induction a as [|x a IH]; cbn; [reflexivity|]. rewrite IH. reflexivity. Qed.

Lemma slashFree_append a b :
  slashFree (String.append a b) = slashFree a && slashFree b.
Proof.
  induction a as [|c a IH]; cbn; [reflexivity|].
  rewrite IH. apply andb_assoc.
Qed.

Lemma entryName_slashFree c : entryName c = true -> slashFree c = true.
Proof. unfold entryName. intros H. apply andb_true_iff in H. tauto. Qed.

Lemma entryName_tests c :
  entryName c = true ->
  String.eqb c "" = false /\ String.eqb c "." = false /\ String.eqb c ".." = false.
Proof.
  unfold entryName. intros H. apply andb_true_iff in H as [_ H].
  apply negb_true_iff in H.
  destruct (String.eqb c ""), (String.eqb c "."), (String.eqb c ".."); auto; discriminate.
Qed.

(** [strings.Split] gives pieces without a slash. *)
Lemma splitSlash_slashFree path : forall cur,
  slashFree cur = true -> List.Forall SlashFree (splitSlash path cur).
Proof.
  induction path as [|c rest IH]; intros cur Hcur; cbn.
  - constructor; [exact Hcur|constructor].
  - destruct (Ascii.eqb c Slash) eqn:Hc.
    + constructor; [exact Hcur|]. apply IH. reflexivity.
    + apply IH. rewrite slashFree_append, Hcur. cbn. rewrite Hc. reflexivity.
Qed.

(** Cleaning a rooted path leaves entry names only. *)
Lemma cleanParts_entries parts : forall acc,
  List.Forall SlashFree parts -> List.Forall EntryName acc ->
  List.Forall EntryName (cleanParts true parts acc).
Proof.
  induction parts as [|p rest IH]; intros acc Hparts Hacc; cbn.
  - apply List.Forall_rev. exact Hacc.
  - inversion Hparts as [|? ? Hp Hrest]; subst.
    destruct (String.eqb p "") eqn:H0; cbn; [apply IH; assumption|].
    destruct (String.eqb p ".") eqn:H1; cbn; [apply IH; assumption|].
    destruct (String.eqb p "..") eqn:H2.
    + destruct acc as [|top acc']; [apply IH; assumption|].
      inversion Hacc as [|? ? Htop Hacc']; subst.
      destruct (entryName_tests _ Htop) as (_ & _ & ->).
      apply IH; assumption.
    + apply IH; [assumption|]. constructor; [|exact Hacc].
      unfold entryName. rewrite Hp, H0, H1, H2. reflexivity.
Qed.

Lemma resolve_entries path : List.Forall EntryName (resolve path).
Proof.
  unfold resolve. apply cleanParts_entries; [|constructor].
  apply splitSlash_slashFree. reflexivity.
Qed.

Lemma splitSlash_append c : forall s cur,
  slashFree c = true ->
  splitSlash (String.append c s) cur = splitSlash s (String.append cur c).
Proof.
  induction c as [|x c IH]; intros s cur Hc; cbn.
  - rewrite append_empty. reflexivity.
  - cbn in Hc. apply andb_true_iff in Hc as [Hx Hc]. apply negb_true_iff in Hx.
    rewrite Hx, (IH _ _ Hc), append_assoc. reflexivity.
Qed.

Lemma splitSlash_piece c cur :
  slashFree c = true -> splitSlash c cur = [String.append cur c].
Proof.
  intros Hc. rewrite <- (append_empty c) at 1.
  rewrite (splitSlash_append _ _ _ Hc). reflexivity.
Qed.

(** Splitting what was joined with slashes gives the pieces back. *)
Lemma splitSlash_concat cs : forall c cur,
  List.Forall SlashFree (c :: cs) ->
  splitSlash (String.concat "/" (c :: cs)) cur = String.append cur c :: cs.
Proof.
  induction cs as [|c' cs IH]; intros c cur Hall;
    inversion Hall as [|? ? Hc Hcs]; subst.
  - cbn. apply splitSlash_piece. exact Hc.
  - change (String.concat "/" (c :: c' :: cs))
      with (String.append c (String.append "/" (String.concat "/" (c' :: cs)))).
    rewrite (splitSlash_append _ _ _ Hc).
    change (String.append "/" ?x) with (String Slash x).
    cbn [splitSlash]. rewrite Ascii.eqb_refl. rewrite (IH _ _ Hcs). reflexivity.
Qed.

Lemma cleanParts_kept rooted cs : forall acc,
  List.Forall EntryName cs -> cleanParts rooted cs acc = rev acc ++ cs.
Proof.
  induction cs as [|c cs IH]; intros acc Hall; cbn.
  - rewrite app_nil_r. reflexivity.
  - inversion Hall as [|? ? Hc Hcs]; subst.
    destruct (entryName_tests _ Hc) as (-> & -> & ->). cbn.
    rewrite (IH _ Hcs). cbn. rewrite <- app_assoc. reflexivity.
Qed.

Lemma Forall_slashFree cs :
  List.Forall EntryName cs -> List.Forall SlashFree cs.
Proof.
  intros H. eapply List.Forall_impl; [|exact H]. intros c. apply entryName_slashFree.
Qed.

(** The names of [/a/b/c] are [a], [b] and [c]. *)
Lemma resolve_rooted names :
  List.Forall EntryName names ->
  resolve (String.append "/" (String.concat "/" names)) = names.
Proof.
  intros Hall. unfold resolve.
  change (String.append "/" ?x) with (String Slash x).
  cbn [splitSlash]. rewrite Ascii.eqb_refl.
  destruct names as [|c cs]; [reflexivity|].
  rewrite (splitSlash_concat _ _ _ (Forall_slashFree _ Hall)).
  cbn [cleanParts String.eqb orb String.append].
  apply (cleanParts_kept true (c :: cs) [] Hall).
Qed.

Lemma prefix_slash p :
  String.prefix "/" p = true -> exists rest, p = String Slash rest.
Proof.
  destruct p as [|c rest]; [cbn; discriminate|].
  change (String.prefix "/" (String c rest))
    with (if Ascii.ascii_dec Slash c then String.prefix "" rest else false).
  destruct (Ascii.ascii_dec Slash c) as [<-|]; [eauto|discriminate].
Qed.

Lemma prefix_rooted rest : String.prefix "/" (String Slash rest) = true.
Proof. destruct rest; reflexivity. Qed.

Lemma Clean_rooted p :
  String.prefix "/" p = true ->
  Clean p = String.append "/" (String.concat "/" (resolve p)).
Proof.
  intros Hp. destruct (prefix_slash _ Hp) as [rest ->].
  unfold Clean. rewrite Hp. reflexivity.
Qed.

(** A canonical path is a slash and entry names joined with slashes. *)
Lemma canonical_form p :
  isCanonical p = true <->
  exists names, List.Forall EntryName names /\
                p = String.append "/" (String.concat "/" names).
Proof.
  unfold isCanonical. split.
  - intros H. apply andb_true_iff in H as [Hp Hc]. apply String.eqb_eq in Hc.
    exists (resolve p). split; [apply resolve_entries|].
    rewrite <- Hc at 1. apply Clean_rooted, Hp.
  - intros (names & Hall & ->).
    assert (Hp : String.prefix "/" (String.append "/" (String.concat "/" names)) = true)
      by apply prefix_rooted.
    rewrite Hp, (Clean_rooted _ Hp), (resolve_rooted _ Hall). apply String.eqb_refl.
Qed.

Lemma concat_snoc names : forall c n,
  String.concat "/" ((c :: names) ++ [n])
  = String.append (String.concat "/" (c :: names)) (String.append "/" n).
Proof.
  induction names as [|c' names IH]; intros c n.
  - reflexivity.
  - change (String.concat "/" ((c :: c' :: names) ++ [n]))
      with (String.append c (String.append "/" (String.concat "/" ((c' :: names) ++ [n])))).
    rewrite IH.
    change (String.concat "/" (c :: c' :: names))
      with (String.append c (String.append "/" (String.concat "/" (c' :: names)))).
    rewrite !append_assoc. reflexivity.
Qed.

(** [filepath.Join] of a canonical path and an entry name adds the name. *)
Lemma Join_entry names n :
  List.Forall EntryName names -> entryName n = true ->
  Join (String.append "/" (String.concat "/" names)) n
  = String.append "/" (String.concat "/" (names ++ [n])).
Proof.
  intros Hall Hn.
  assert (Hall' : List.Forall EntryName (names ++ [n]))
    by (apply List.Forall_app; split; [exact Hall|constructor; [exact Hn|constructor]]).
  unfold Join. change (String.append "/" ?x) with (String Slash x) at 1 2.
  cbn [String.eqb negb String.append].
  rewrite Clean_rooted by apply prefix_rooted. f_equal. f_equal.
  destruct names as [|c cs].
  - unfold resolve. cbn [String.concat String.append splitSlash].
    rewrite !Ascii.eqb_refl. rewrite (splitSlash_piece n "" (entryName_slashFree _ Hn)).
    cbn [String.append cleanParts String.eqb orb].
    apply (cleanParts_kept true [n] []). constructor; [exact Hn|constructor].
  - transitivity (resolve (String.append "/" (String.concat "/" ((c :: cs) ++ [n]))));
      [|apply resolve_rooted; exact Hall'].
    rewrite concat_snoc. reflexivity.
Qed.

Lemma insertSorted_entries name sorted :
  entryName name = true -> List.Forall EntryName sorted ->
  List.Forall EntryName (insertSorted name sorted).
Proof.
  intros Hn Hall. induction Hall as [|x rest Hx Hrest IH]; cbn.
  - constructor; [exact Hn|constructor].
  - destruct (String.leb name x);
      [constructor; [exact Hn|constructor; assumption]|constructor; [exact Hx|exact IH]].
Qed.

Lemma last_entry (k : list string) :
  k <> [] -> List.Forall EntryName k -> entryName (List.last k "") = true.
Proof.
  intros Hk Hall. destruct (exists_last Hk) as (front & x & ->).
  rewrite List.last_last. apply List.Forall_app in Hall as [_ Hx].
  inversion Hx; assumption.
Qed.

Lemma wellFormed_keys t :
  wellFormed t = true <->
  List.Forall (fun e : list string * Node => List.Forall EntryName (fst e)) t.
Proof.
  unfold wellFormed. rewrite List.forallb_forall, List.Forall_forall.
  split; intros H e He; specialize (H e He).
  - apply List.Forall_forall. apply List.forallb_forall. exact H.
  - apply List.forallb_forall. apply List.Forall_forall. exact H.
Qed.

Lemma entriesOf_entries names t :
  wellFormed t = true -> List.Forall EntryName (entriesOf names t).
Proof.
  rewrite wellFormed_keys. intros Hall.
  induction Hall as [|[k n] rest Hk Hrest IH]; cbn; [constructor|].
  destruct (isPrefix names k && Nat.eqb (length k) (S (length names))) eqn:Hsel;
    [|exact IH].
  apply insertSorted_entries; [|exact IH].
  apply last_entry; [|exact Hk].
  apply andb_true_iff in Hsel as [_ Hlen]. apply Nat.eqb_eq in Hlen.
  intros ->. discriminate.
Qed.

Lemma rekey_wellFormed from to t :
  List.Forall EntryName to -> wellFormed t = true -> wellFormed (rekey from to t) = true.
Proof.
  rewrite !wellFormed_keys. intros Hto Hall. unfold rekey.
  apply List.Forall_map. eapply List.Forall_impl; [|exact Hall].
  intros [k n] Hk. cbn in *. destruct (isPrefix from k); [|exact Hk]. cbn.
  apply List.Forall_app. split; [exact Hto|].
  apply List.Forall_forall. intros x Hx.
  rewrite List.Forall_forall in Hk. apply Hk.
  rewrite <- (List.firstn_skipn (length from) k). apply List.in_or_app. right. exact Hx.
Qed.

Lemma filter_wellFormed (keep : list string * Node -> bool) t :
  wellFormed t = true -> wellFormed (List.filter keep t) = true.
Proof.
  rewrite !wellFormed_keys, !List.Forall_forall. intros Hall e He.
  apply List.filter_In in He as [He _]. auto.
Qed.

Lemma Rename_wellFormed t source target :
  wellFormed t = true -> wellFormed (fst (Rename t source target)) = true.
Proof.
  intros Hwf. unfold Rename.
  repeat match goal with
         | |- context [match ?x with _ => _ end] => destruct x; cbn [fst]; try exact Hwf
         end;
    apply rekey_wellFormed; try apply resolve_entries; try apply filter_wellFormed;
    exact Hwf.
Qed.

(** The laws, for the in-memory file system: canonical paths, entry names
    and well-formed trees. *)
Lemma memFS_laws :
  PathLaws (os := memOS)
           (fun p => isCanonical p = true)
           (fun n => entryName n = true)
           (fun t => wellFormed t = true).
Proof.
  split.
  - intros a n Ha Hn. apply canonical_form in Ha as (names & Hall & ->).
    apply canonical_form. exists (names ++ [n]). split.
    + apply List.Forall_app. split; [exact Hall|constructor; [exact Hn|constructor]].
    + apply Join_entry; assumption.
  - intros a b n Ha Hb Hn Heq.
    apply canonical_form in Ha as (as_ & Has & ->).
    apply canonical_form in Hb as (bs & Hbs & ->).
    pose proof (Join_entry as_ n Has Hn) as Ea.
    pose proof (Join_entry bs n Hbs Hn) as Eb.
    assert (Hall : forall l, List.Forall EntryName l -> List.Forall EntryName (l ++ [n]))
      by (intros l Hl; apply List.Forall_app; split;
          [exact Hl|constructor; [exact Hn|constructor]]).
    assert (E : String.append "/" (String.concat "/" (as_ ++ [n]))
                = String.append "/" (String.concat "/" (bs ++ [n])))
      by (rewrite <- Ea, <- Eb; exact Heq).
    apply (f_equal resolve) in E.
    rewrite !resolve_rooted in E by (apply Hall; assumption).
    apply app_inv_tail in E. rewrite E. reflexivity.
  - intros f p names Hf Hread. change (MemFS.ReadDir f p = Ok names) in Hread.
    unfold MemFS.ReadDir in Hread.
    repeat match type of Hread with
           | context [match ?x with _ => _ end] => destruct x; try discriminate Hread
           end;
      injection Hread as <-; apply entriesOf_entries, Hf.
  - intros f s t Hf. apply (Rename_wellFormed f s t Hf).
Qed.

(** Going down from a canonical path by entry names adds the names. *)
Lemma descend_entries names : forall comps,
  List.Forall EntryName comps -> List.Forall EntryName names ->
  descend (os := memOS) (String.append "/" (String.concat "/" comps)) names
  = String.append "/" (String.concat "/" (comps ++ names)).
Proof.
  induction names as [|n names IH]; intros comps Hcomps Hnames.
  - rewrite app_nil_r. reflexivity.
  - inversion Hnames as [|? ? Hn Hrest]; subst.
    change (descend (os := memOS) ?root (n :: names))
      with (descend (os := memOS) (MemFS.Join root n) names).
    rewrite (Join_entry _ _ Hcomps Hn), IH, <- app_assoc; [reflexivity| |exact Hrest].
    apply List.Forall_app. split; [exact Hcomps|constructor; [exact Hn|constructor]].
Qed.

End MemLaws.

(** ** Links *)

Section Links.

Context {FS : Type} {os : OS FS}.
Implicit Types (m : @Machine FS) (w : @World FS).

(** C4: every job of a run whose source is a symbolic link is skipped.  The
    roots are in canonical form, as [cleanPath] gives them to [performMove].
    Whenever a worker holds a job whose source [os.Lstat] reports as a link,
    whatever the link points to, its next step ends the job with no child
    job (the worker goes on to [jobsWg.Done()]), calls no rename, leaves the
    file system as it was, so nothing appears under the target, and adds one
    to the symlinks-skipped counter and to no other. *)
Theorem symlink_job_is_skipped
    Canonical Entry Sound fs0 source target opts m0 schedule m i job info :
  PathLaws Canonical Entry Sound ->
  Canonical source -> Canonical target -> Sound fs0 ->
  performMove fs0 source target opts = Started m0 ->
  exec schedule m0 = Some m ->
  pool m !! i = Some (WProc job) ->
  Lstat (fs (world m)) (SourcePath job) = Ok info ->
  isSymlink info = true ->
  exists w',
    step (AWorker i) m = Next (setWorker (setWorld m w') i (WLoop [])) /\
    fs w' = fs (world m) /\
    renameCalls (log w') = renameCalls (log (world m)) /\
    stats w' = addCounter CSymlinksSkipped 1 (stats (world m)).
Proof.
  intros Hlaws Hsource Htarget Hsound Hstart Hexec Hi Hstat Hlink.
  assert (Hne : SourcePath job <> TargetPath job).
  { destruct (String.eqb_spec source target) as [Heq|Hroots].
    - (* one root given twice: the only job is the seed, which is no link *)
      subst target. exfalso.
      destruct (run_onlySeed _ _ _ _ _ _ Hstart Hexec) as (_ & Hpool & _).
      pose proof (Forall_lookup_1 _ _ _ _ Hpool Hi) as Hjob. cbn in Hjob. subst job.
      destruct (run_selfMerge _ _ _ _ _ _ Hstart Hexec) as (_ & Hfs & _).
      apply performMove_started in Hstart as (Hroot & _ & _).
      destruct (checkRoot_passes _ _ Hroot) as (info0 & Hstat0 & _ & Hnolink).
      cbn [SourcePath] in Hstat. rewrite Hfs, Hstat0 in Hstat.
      injection Hstat as ->. congruence.
    - (* two roots: the same names lead to two different paths *)
      destruct (run_mirrored _ _ _ _ _ _ _ _ _ _ Hlaws Hsound Hstart Hexec)
        as (_ & _ & _ & Hpool & _).
      pose proof (Forall_lookup_1 _ _ _ _ Hpool Hi) as Hjob. cbn in Hjob.
      inversion Hjob as [|? ? (names & Hall & Hs & Ht) _]; subst.
      rewrite Hs, Ht. intros Heq. apply Hroots.
      exact (descend_injective Canonical Entry Sound names source target
               Hlaws Hsource Htarget Hall Heq). }
  destruct (link_job (options m) (world m) (SourcePath job) (TargetPath job) info
              Hstat Hlink) as (Hnone & Hcalls & Hfs & Hcount).
  exists (snd (processPath (SourcePath job) (TargetPath job) (options m) (world m))).
  split; [|split; [exact Hfs|split; [exact Hcalls|exact (Hcount Hne)]]].
  cbn. unfold worker. rewrite Hi.
  destruct (processPath (SourcePath job) (TargetPath job) (options m) (world m))
    as [newJobs w'].
  cbn in Hnone. rewrite Hnone. reflexivity.
Qed.

End Links.

(** ** The further properties on the example trees *)

Section OnMoreExamples.

Import MemFS Examples MoreExamples MemPaths.

Ltac evaluate := vm_compute; reflexivity.

Lemma more_runs :
  exec midRest midExpansion = Some midEnd /\
  exec linkSchedule mergeStart = Some linkHeld /\
  lateExec loudReturn loudStart = Some loudReturned /\
  lateExec leaving loudReturned = Some loudLeft.
Proof. do 3 (split; [vm_compute; reflexivity|]). vm_compute; reflexivity. Qed.

Lemma idle_runs :
  performMove mixed "/src" "/dst" idle = Started idleStart /\
  exec idleSchedule idleStart = Some idleEnd.
Proof. split; vm_compute; reflexivity. Qed.

Lemma same_runs :
  performMove mixed "/src" "/src" defaults = Started sameStart /\
  exec sameSchedule sameStart = Some sameEnd.
Proof. split; vm_compute; reflexivity. Qed.

Lemma loud_runs :
  performMove mixed "/src" "/dst" loud = Started loudStart /\
  exec loudSchedule loudStart = Some loudEnd.
Proof. split; vm_compute; reflexivity. Qed.

Lemma narrow_runs :
  performMove mixed "/src" "/dst" narrow = Started narrowStart /\
  exec narrowSchedule narrowStart = Some narrowEnd.
Proof. split; vm_compute; reflexivity. Qed.

Lemma flag_runs :
  runMove (fp := inRoot) 2 mixed defaultFlags "/src/" "src" = Started twiceStart /\
  exec twiceSchedule twiceStart = Some twiceEnd /\
  runMove (fp := inRoot) 2 mixed defaultFlags "/src" "/dst" = Started flagStart /\
  exec mergeSchedule flagStart = Some flagEnd /\
  runMove (fp := inRoot) 2 mixed minusOne "/src" "/dst" = Started minusStart /\
  exec minusSchedule minusStart = Some minusEnd.
Proof. do 5 (split; [vm_compute; reflexivity|]). vm_compute; reflexivity. Qed.

(** *** X1: a job for a path that is not there, under [--verbose] *)

Lemma source_stat_failure_witness :
  processPath "/src/missing" "/dst/missing" noisy (fresh mixed) =
    ([], mkWorld mixed (addCounter CErrors 1 zeroStatistics)
           [SysLstat "/src/missing"; Stderr (CannotStat "/src/missing" ENOENT)]).
Proof.
  assert (Hne : "/src/missing" <> "/dst/missing") by discriminate.
  assert (Hstat : Lstat (fs (fresh mixed)) "/src/missing" = Err ENOENT) by evaluate.
  exact (source_stat_failure (os := memOS) noisy (fresh mixed) _ _ _ Hne Hstat).
Defined.

(** *** C4: the link /src/link.txt in the merge of [mixed] *)

Lemma symlink_job_is_skipped_witness :
  pool linkHeld !! 1%nat = Some (WProc (mkJob "/src/link.txt" "/dst/link.txt")) /\
  exists w',
    step (AWorker 1) linkHeld = Next (setWorker (setWorld linkHeld w') 1 (WLoop [])) /\
    fs w' = fs (world linkHeld) /\
    renameCalls (log w') = renameCalls (log (world linkHeld)) /\
    stats w' = addCounter CSymlinksSkipped 1 (stats (world linkHeld)) /\
    SymlinksSkipped (stats (world linkHeld)) = 0 /\
    SymlinksSkipped (stats w') = 1.
Proof.
  destruct merge_runs as (Hstart & _ & _).
  destruct more_runs as (_ & Hheld & _).
  assert (Hsource : isCanonical "/src" = true) by reflexivity.
  assert (Htarget : isCanonical "/dst" = true) by reflexivity.
  assert (Hsound : wellFormed mixed = true) by reflexivity.
  assert (Hjob : pool linkHeld !! 1%nat
                 = Some (WProc (mkJob "/src/link.txt" "/dst/link.txt"))) by evaluate.
  assert (Hstat : Lstat (fs (world linkHeld)) "/src/link.txt"
                  = Ok (info (Link "/src/a.txt"))) by evaluate.
  assert (Hlink : isSymlink (info (Link "/src/a.txt")) = true) by evaluate.
  destruct (symlink_job_is_skipped (os := memOS) _ _ _ _ _ _ _ _ _ _ _ _ _
              memFS_laws Hsource Htarget Hsound Hstart Hheld Hjob Hstat Hlink)
    as (w' & Hstep & Hfs & Hcalls & Hcount).
  split; [exact Hjob|]. exists w'.
  split; [exact Hstep|]. split; [exact Hfs|]. split; [exact Hcalls|].
  split; [exact Hcount|]. split; [evaluate|]. rewrite Hcount. evaluate.
Defined.

(** *** X2: the merge into a read-only target: one file checked, not moved,
    not skipped, one failed rename *)

Lemma checked_is_moved_skipped_or_failed_witness :
  mainPC deniedEnd = MReturned (Some (CompletedWithErrors 1)) /\
  let s := stats (world deniedEnd) in
  (DirsChecked s - DirsMoved s - DirsSkipped s)
    + (FilesChecked s - FilesMoved s - FilesSkipped s) = failures (log (world deniedEnd)) /\
  failures (log (world deniedEnd)) = 1.
Proof.
  destruct denied_runs as (Hstart & Hend).
  assert (Hbound : Z.of_nat (length deniedSchedule) < 2 ^ 63) by evaluate.
  assert (Hpc : mainPC deniedEnd = MReturned (Some (CompletedWithErrors 1))) by evaluate.
  destruct (checked_is_moved_skipped_or_failed _ _ _ _ _ _ _ _ Hstart Hend Hbound Hpc)
    as (_ & _ & Hsum).
  split; [exact Hpc|]. split; [exact Hsum|evaluate].
Defined.

(** *** X3: the merge of [mixed]: a directory and a file moved, two renames *)

Lemma moved_counts_successful_renames_witness :
  mainPC mergeEnd = MReturned None /\
  DirsMoved (stats (world mergeEnd)) + FilesMoved (stats (world mergeEnd))
    = successes (log (world mergeEnd)) /\
  successes (log (world mergeEnd)) = 2.
Proof.
  destruct merge_runs as (Hstart & Hend & _).
  assert (Hbound : Z.of_nat (length mergeSchedule) < 2 ^ 63) by evaluate.
  assert (Hreal : DryRun defaults = false) by reflexivity.
  assert (Hpc : mainPC mergeEnd = MReturned None) by evaluate.
  split; [exact Hpc|]. split; [|evaluate].
  exact (moved_counts_successful_renames _ _ _ _ _ _ _ _ Hreal Hstart Hend Hbound Hpc).
Defined.

(** *** X4: the merge of [mixed] returns no error: no rename in it failed *)

Lemma success_means_every_rename_succeeded_witness :
  mainPC mergeEnd = MReturned None /\
  forall a b e, ~ In (SysRename a b (Some e)) (log (world mergeEnd)).
Proof.
  destruct merge_runs as (Hstart & Hend & _).
  assert (Hbound : Z.of_nat (length mergeSchedule) < 2 ^ 63) by evaluate.
  assert (Hpc : mainPC mergeEnd = MReturned None) by evaluate.
  destruct (success_means_every_rename_succeeded _ _ _ _ _ _ _ _ Hstart Hend Hbound Hpc)
    as [_ Hnone].
  split; [exact Hpc|exact (Hnone eq_refl)].
Defined.

(** *** X5: the counters in the middle of the merge and at its end *)

Lemma counters_never_decrease_witness :
  counter CFilesChecked (stats (world midExpansion)) = 0 /\
  counter CFilesChecked (stats (world midEnd)) = 2 /\
  forall c, c <> CBytesMoved ->
    counter c (stats (world midExpansion)) <= counter c (stats (world midEnd)).
Proof.
  destruct merge_runs as (Hstart & _ & Hmid).
  destruct more_runs as (Hrest & _).
  assert (Hbound : Z.of_nat (length midSchedule) + Z.of_nat (length midRest) < 2 ^ 63)
    by evaluate.
  split; [evaluate|]. split; [evaluate|].
  exact (counters_never_decrease _ _ _ _ _ _ _ _ _ Hstart Hmid Hrest Hbound).
Defined.

(** *** X6: the channel in the middle of the merge *)

Lemma queue_never_exceeds_buffer_witness :
  bufferSize midExpansion = 10000 /\
  Z.of_nat (length (jobs midExpansion)) <= bufferSize midExpansion /\
  length (pool midExpansion) = 2%nat.
Proof.
  destruct merge_runs as (Hstart & _ & Hmid).
  destruct (queue_never_exceeds_buffer _ _ _ _ _ _ _ Hstart Hmid)
    as (Hsize & _ & Hlen & Hpool & _).
  split; [exact Hsize|]. split; [exact Hlen|exact Hpool].
Defined.

(** *** X7: [performMove] with no worker stops at [jobsWg.Wait()] *)

Lemma no_worker_never_returns_witness :
  mainPC idleEnd = MWait /\
  step AMain idleEnd = Blocked /\
  (forall r, mainPC idleEnd <> MReturned r) /\
  fs (world idleEnd) = mixed /\ stats (world idleEnd) = zeroStatistics.
Proof.
  destruct idle_runs as (Hstart & Hend).
  assert (Hnone : Workers idle <= 0) by exact (Z.le_refl 0).
  destruct (no_worker_never_returns _ _ _ _ _ _ _ Hnone Hstart Hend)
    as (Hret & _ & _ & Hfs & Hstats & _).
  split; [evaluate|]. split; [evaluate|].
  split; [exact Hret|]. split; [exact Hfs|exact Hstats].
Defined.

(** *** X8: in the middle of the merge some goroutine can move *)

Lemma never_stuck_with_room_witness :
  exists a m', a <> AReporter /\ step a midExpansion = Next m'.
Proof.
  destruct merge_runs as (Hstart & _ & Hmid).
  assert (Hsome : 1 <= Workers defaults) by (vm_compute; discriminate).
  assert (Hroom : Z.of_nat (length (jobs midExpansion)) < bufferSize midExpansion)
    by evaluate.
  assert (Hrunning : forall r, mainPC midExpansion <> MReturned r)
    by (intros r Hpc; vm_compute in Hpc; discriminate Hpc).
  exact (never_stuck_with_room _ _ _ _ _ _ _ Hsome Hstart Hmid Hroom Hrunning).
Defined.

(** *** X9: after [performMove] has returned the workers leave and the
    reporter prints twice more *)

Lemma result_is_final_witness :
  pool loudReturned = [WRecv; WRecv] /\
  pool loudLeft = [WExit; WExit] /\
  log (world loudLeft)
  = log (world loudReturned)
    ++ replicate 2 (Stdout (Progress (stats (world loudReturned)))) /\
  mainPC loudLeft = MReturned None /\
  fs (world loudLeft) = fs (world loudReturned) /\
  stats (world loudLeft) = stats (world loudReturned) /\
  lateStep AMain loudLeft = Blocked.
Proof.
  assert (Hstart : performMove mixed "/src" "/dst" loud = Started loudStart) by evaluate.
  destruct more_runs as (_ & _ & Hreturn & Hleave).
  assert (Hpc : mainPC loudReturned = MReturned None) by evaluate.
  destruct (result_is_final _ _ _ _ _ _ _ _ _ _ Hstart Hreturn Hpc Hleave)
    as (Hmain & Hfs & Hstats & _ & _ & _ & _ & Hblocked & _).
  split; [evaluate|]. split; [evaluate|]. split; [evaluate|].
  split; [exact Hmain|]. split; [exact Hfs|]. split; [exact Hstats|exact Hblocked].
Defined.

(** *** X10: /src merged into /src *)

Lemma merging_into_itself_is_a_no_op_witness :
  mainPC sameEnd = MReturned None /\
  syscalls (log (world sameEnd)) = [SysLstat "/src"; SysLstat "/src"] /\
  fs (world sameEnd) = mixed /\
  stats (world sameEnd) = zeroStatistics.
Proof.
  destruct same_runs as (Hstart & Hend).
  destruct (merging_into_itself_is_a_no_op _ _ _ _ _ _ Hstart Hend)
    as (Hcalls & Hfs & Hstats & _).
  split; [evaluate|]. split; [exact Hcalls|]. split; [exact Hfs|exact Hstats].
Defined.

(** *** X11: the renames of the merge of [mixed] go from under /src to the
    same place under /dst *)

Lemma jobs_mirror_the_source_witness :
  In (SysRename "/src/new" "/dst/new" None) (log (world mergeEnd)) /\
  forall a b e, In (SysRename a b e) (log (world mergeEnd)) ->
    exists names,
      List.Forall (fun n => entryName n = true) names /\
      a = String.append "/" (String.concat "/" ("src" :: names)) /\
      b = String.append "/" (String.concat "/" ("dst" :: names)).
Proof.
  destruct merge_runs as (Hstart & Hend & _).
  assert (Hsource : isCanonical "/src" = true) by reflexivity.
  assert (Htarget : isCanonical "/dst" = true) by reflexivity.
  assert (Hsound : wellFormed mixed = true) by reflexivity.
  destruct (jobs_mirror_the_source (os := memOS) _ _ _ _ _ _ _ _ _ _
              memFS_laws Hsource Htarget Hsound Hstart Hend) as (_ & _ & Hren & _).
  split; [vm_compute; tauto|].
  intros a b e Hin. destruct (Hren a b e Hin) as (_ & _ & names & Hall & Ha & Hb).
  exists names. split; [exact Hall|].
  assert (Hsrc : List.Forall (fun n => entryName n = true) ["src"])
    by (repeat constructor).
  assert (Hdst : List.Forall (fun n => entryName n = true) ["dst"])
    by (repeat constructor).
  rewrite Ha, Hb. split.
  - exact (descend_entries names ["src"] Hsrc Hall).
  - exact (descend_entries names ["dst"] Hdst Hall).
Defined.

(** *** X12: the merge of [mixed] under [--stats --verbose] and without *)

Lemma output_options_change_only_the_output_witness :
  In AReporter loudSchedule /\
  exec (List.filter notReporter loudSchedule) (hush loudStart) = Some (hush loudEnd) /\
  fs (world (hush loudEnd)) = fs (world loudEnd) /\
  stats (world (hush loudEnd)) = stats (world loudEnd) /\
  log (world (hush loudEnd)) = syscalls (log (world loudEnd)).
Proof.
  destruct loud_runs as (Hstart & Hend).
  destruct (output_options_change_only_the_output _ _ _ _ _ _ _ Hstart Hend)
    as (_ & Hquiet & _ & Hfs & Hstats & Hlog).
  split; [vm_compute; tauto|].
  split; [exact Hquiet|]. split; [exact Hfs|]. split; [exact Hstats|exact Hlog].
Defined.

(** *** X13: the four entries of /src, one worker and a channel of two *)

Lemma one_worker_small_buffer_never_returns_witness :
  step AMain narrowEnd = Blocked /\
  step (AWorker 0) narrowEnd = Blocked /\
  (forall r, mainPC narrowEnd <> MReturned r) /\
  fs (world narrowEnd) = mixed.
Proof.
  destruct narrow_runs as (Hstart & Hend).
  assert (Hone : Workers narrow = 1) by reflexivity.
  assert (Hne : "/src" <> "/dst") by discriminate.
  assert (Hread : ReadDir mixed "/src" = Ok ["a.txt"; "b.txt"; "link.txt"; "new"])
    by evaluate.
  assert (Hmany : (if Buffer narrow =? 0 then 100000 else Buffer narrow)
                  < Z.of_nat (length ["a.txt"; "b.txt"; "link.txt"; "new"]))
    by evaluate.
  destruct (one_worker_small_buffer_never_returns (os := memOS) _ _ _ _ _ _ _ _
              Hone Hne Hread Hmany Hstart Hend) as (Hret & _ & _ & _ & Hfs).
  split; [evaluate|]. split; [evaluate|]. split; [exact Hret|exact Hfs].
Defined.

(** *** X14: [cleanPath] in /work, and where [os.Getwd] fails *)

Lemma cleanPath_is_final_witness :
  (cleanPath (fp := unixPath (Ok "/work")) "src/../lib/" = "/work/lib" /\
   cleanPath (fp := unixPath (Ok "/work")) "/work/lib" = "/work/lib") /\
  (cleanPath (fp := unixPath (Err EACCES)) "src/../lib/" = "lib" /\
   cleanPath (fp := unixPath (Err EACCES)) "lib" = "lib").
Proof.
  split.
  - assert (Hclean : MemFS.Clean (MemFS.Clean "src/../lib/") = MemFS.Clean "src/../lib/")
      by evaluate.
    assert (Habs : forall a,
               Abs (Filepath := unixPath (Ok "/work")) (MemFS.Clean "src/../lib/") = Ok a ->
               String.prefix "/" a = true /\ MemFS.Clean a = a).
    { intros a Ha. vm_compute in Ha. injection Ha as <-. split; evaluate. }
    destruct (cleanPath_is_final (fp := unixPath (Ok "/work")) "src/../lib/" Hclean Habs)
      as (_ & Hfinal & _).
    assert (Hvalue : cleanPath (fp := unixPath (Ok "/work")) "src/../lib/" = "/work/lib")
      by evaluate.
    split; [exact Hvalue|]. rewrite Hvalue in Hfinal. exact Hfinal.
  - assert (Hclean : MemFS.Clean (MemFS.Clean "src/../lib/") = MemFS.Clean "src/../lib/")
      by evaluate.
    assert (Habs : forall a,
               Abs (Filepath := unixPath (Err EACCES)) (MemFS.Clean "src/../lib/") = Ok a ->
               String.prefix "/" a = true /\ MemFS.Clean a = a).
    { intros a Ha. vm_compute in Ha. discriminate Ha. }
    destruct (cleanPath_is_final (fp := unixPath (Err EACCES)) "src/../lib/" Hclean Habs)
      as (_ & Hfinal & _).
    assert (Hvalue : cleanPath (fp := unixPath (Err EACCES)) "src/../lib/" = "lib")
      by evaluate.
    split; [exact Hvalue|]. rewrite Hvalue in Hfinal. exact Hfinal.
Defined.

(** *** X15: [mvmv /src/ src] in the root directory *)

Lemma runMove_on_one_directory_witness :
  mainPC twiceEnd = MReturned None /\
  syscalls (log (world twiceEnd)) = [SysLstat "/src"; SysLstat "/src"] /\
  fs (world twiceEnd) = mixed /\
  stats (world twiceEnd) = zeroStatistics.
Proof.
  destruct flag_runs as (Hstart & Hend & _).
  assert (Hsame : cleanPath (fp := inRoot) "/src/" = cleanPath (fp := inRoot) "src")
    by evaluate.
  destruct (runMove_on_one_directory _ _ _ _ _ _ _ _ Hsame Hstart Hend)
    as (Hcalls & Hfs & Hstats & _).
  split; [evaluate|]. split; [exact Hcalls|]. split; [exact Hfs|exact Hstats].
Defined.

(** *** X16: [mvmv /src /dst] and [mvmv -w -1 /src /dst] on two cores *)

Lemma runMove_workers_witness :
  length (pool flagEnd) = 2%nat /\
  mainPC flagEnd = MReturned None /\
  pool minusEnd = [] /\
  (forall r, mainPC minusEnd <> MReturned r).
Proof.
  destruct flag_runs as (_ & _ & Hstart & Hend & Hminus & Hstuck).
  assert (Hcpu : 1 <= 2) by lia.
  destruct (runMove_workers _ _ _ _ _ _ _ _ Hcpu Hstart Hend) as (Hpool & _ & _).
  destruct (runMove_workers _ _ _ _ _ _ _ _ Hcpu Hminus Hstuck) as (_ & _ & Hneg).
  assert (Hflag : workersFlag minusOne < 0) by reflexivity.
  destruct (Hneg Hflag) as (Hnone & Hret & _).
  split; [exact Hpool|]. split; [evaluate|]. split; [exact Hnone|exact Hret].
Defined.

End OnMoreExamples.
